(** * Granolaa relay server: a shallow embedding of [server/server.js]

    The development follows the JavaScript source function by function:
    the frame decoder of [feedChunk], the presence registry kept by
    [registerStream] and [unregisterStream], the fan-out of
    [broadcastFrame] and [broadcastStreamUpdate], and the two producer
    routes [POST /stream/screen] and [POST /stream/webcam]. *)

From Equations Require Import Equations.
From Equations.Prop Require Import Logic.
From stdpp Require Import gmap strings list fin_maps.
From Stdlib Require Import ZArith.
From Stdlib.Strings Require Import Byte.

Local Open Scope Z_scope.

(** ** Exceptions

    A JavaScript call either returns or throws.  [try_catch] is the
    [try { ... } catch (error) { ... }] statement. *)

Inductive Exc (A : Type) : Type :=
| Ret (a : A)
| Throw (error : string).
Arguments Ret {A} a.
Arguments Throw {A} error.

Definition bind {A B : Type} (m : Exc A) (k : A -> Exc B) : Exc B :=
  match m with
  | Ret a => k a
  | Throw error => Throw error
  end.

Definition try_catch {A : Type} (m : Exc A) (handler : string -> Exc A) : Exc A :=
  match m with
  | Ret a => Ret a
  | Throw error => handler error
  end.

Notation "x <- m ;; k" := (bind m (fun x => k))
  (at level 100, m at next level, right associativity).

(** ** The frame decoder (server.js, lines 103-126) *)

(** The object stored in [streamBuffers]:
    [{ buf: Buffer, need: number, payloadLen: number }]. *)
Record DecodeState : Type := mkState {
  buf : list byte;
  need : Z;
  payloadLen : Z
}.

(** [10 * 1024 * 1024] *)
Definition MAX_FRAME : Z := 10 * 1024 * 1024.

Definition byteZ (b : byte) : Z := Z.of_N (Byte.to_N b).

(** [buf.readUInt32BE(0)], read only when four bytes are present. *)
Definition readUInt32BE (b : list byte) : Z :=
  match b with
  | b0 :: b1 :: b2 :: b3 :: _ =>
      Z.shiftl (byteZ b0) 24 + Z.shiftl (byteZ b1) 16
      + Z.shiftl (byteZ b2) 8 + byteZ b3
  | _ => 0
  end.

Definition blen (b : list byte) : Z := Z.of_nat (length b).

(** [buf.subarray(start)] and [buf.subarray(0, end)] for a non-negative
    integer bound. *)
Definition subarray_from (n : Z) (b : list byte) : list byte := drop (Z.to_nat n) b.
Definition subarray_to (n : Z) (b : list byte) : list byte := take (Z.to_nat n) b.

(** How one pass through the block of [while (true)] leaves it: by [break],
    or by [continue] after [broadcastFrame(clientId, streamType, frame)]. *)
Inductive Flow : Type :=
| Break (state : DecodeState)
| Continue (frame : list byte) (state : DecodeState).

(** Lines 116-124: the payload test, then [break]. *)
Definition payload_step (state : DecodeState) : Flow :=
  if (0 <? need state) && (need state <=? blen (buf state)) then
    let frame := subarray_to (need state) (buf state) in
    Continue frame
      {| buf := subarray_from (need state) (buf state); need := 4; payloadLen := 0 |}
  else Break state.

(** Lines 109-124: one pass through the loop body. *)
Definition iteration (state : DecodeState) : Flow :=
  if (need state =? 4) && (4 <=? blen (buf state)) then
    let len := readUInt32BE (buf state) in
    let rest := subarray_from 4 (buf state) in
    if MAX_FRAME <? len then
      Break {| buf := rest; need := 4; payloadLen := 0 |}
    else
      payload_step {| buf := rest; need := len; payloadLen := len |}
  else payload_step state.

Lemma payload_step_shrinks state frame state' :
  payload_step state = Continue frame state' ->
  (length (buf state') < length (buf state))%nat.
Proof.
  unfold payload_step, blen, subarray_from.
  destruct (0 <? need state) eqn:Hpos; simpl; [|discriminate].
  destruct (need state <=? Z.of_nat (length (buf state))) eqn:Hle; [|discriminate].
  intros [= _ <-]. simpl. rewrite length_drop.
  apply Z.ltb_lt in Hpos. apply Z.leb_le in Hle. lia.
Qed.

Lemma iteration_shrinks state frame state' :
  iteration state = Continue frame state' ->
  (length (buf state') < length (buf state))%nat.
Proof.
  unfold iteration.
  destruct ((need state =? 4) && (4 <=? blen (buf state))).
  - destruct (MAX_FRAME <? readUInt32BE (buf state)); [discriminate|].
    intros H. apply payload_step_shrinks in H. simpl in H.
    unfold subarray_from in H. rewrite length_drop in H. lia.
  - apply payload_step_shrinks.
Qed.

Section Loop.
(** The loop is written once for any consumer of the frames: [emit] is
    the call [broadcastFrame(clientId, streamType, frame)] acting on the
    state [W] it touches. *)
Context {W : Type} (emit : list byte -> W -> Exc W).

Equations? loop (state : DecodeState) (w : W) : Exc (DecodeState * W)
  by wf (length (buf state)) lt :=
  loop state w with inspect (iteration state) := {
    | exist _ (Break state') _ => Ret (state', w)
    | exist _ (Continue frame state') Hbody =>
        match emit frame w with
        | Ret w' => loop state' w'
        | Throw error => Throw error
        end }.
Proof. eapply iteration_shrinks; eassumption. Qed.

(** Lines 107-125: append the chunk, then run the loop. *)
Definition feed (state : DecodeState) (chunk : list byte) (w : W)
  : Exc (DecodeState * W) :=
  loop {| buf := buf state ++ chunk; need := need state;
          payloadLen := payloadLen state |} w.
End Loop.

(** ** Insertion-ordered maps (the JavaScript [Map] behind [activeStreams])

    [Array.from(map.entries())] lists the entries in insertion order, and
    the presence snapshot is built from it, so the registry is kept as a
    list of entries.  [set] on a present key keeps its place, [set] on a
    new key appends, [delete] removes the entry. *)

Module JsMap.
Section JsMap.
Context {V : Type}.

Fixpoint get (k : string) (m : list (string * V)) : option V :=
  match m with
  | [] => None
  | (k', v) :: m' => if decide (k = k') then Some v else get k m'
  end.

Definition has (k : string) (m : list (string * V)) : bool :=
  match get k m with Some _ => true | None => false end.

Fixpoint set (k : string) (v : V) (m : list (string * V)) : list (string * V) :=
  match m with
  | [] => [(k, v)]
  | (k', v') :: m' =>
      if decide (k = k') then (k, v) :: m' else (k', v') :: set k v m'
  end.

Fixpoint remove (k : string) (m : list (string * V)) : list (string * V) :=
  match m with
  | [] => []
  | (k', v') :: m' =>
      if decide (k = k') then remove k m' else (k', v') :: remove k m'
  end.

Definition keys (m : list (string * V)) : list string := map fst m.
End JsMap.
End JsMap.

(** ** Streams, presence entries and messages *)

(** The two routes pass the literals ['screen'] and ['webcam']. *)
Inductive StreamKind : Type := screen | webcam.

Global Instance StreamKind_eq_dec : EqDecision StreamKind.
Proof. solve_decision. Defined.

Definition kind_name (streamType : StreamKind) : string :=
  match streamType with
  | screen => "screen"
  | webcam => "webcam"
  end.

Definition other_kind (streamType : StreamKind) : StreamKind :=
  match streamType with
  | screen => webcam
  | webcam => screen
  end.

(** The value [{ screen: true|false, webcam: true|false }] of [activeStreams]. *)
Record Presence : Type := mkPresence {
  p_screen : bool;
  p_webcam : bool
}.

(** [streams[streamType]] and [streams[streamType] = b]. *)
Definition flag (streams : Presence) (streamType : StreamKind) : bool :=
  match streamType with
  | screen => p_screen streams
  | webcam => p_webcam streams
  end.

Definition set_flag (streams : Presence) (streamType : StreamKind) (b : bool) : Presence :=
  match streamType with
  | screen => {| p_screen := b; p_webcam := p_webcam streams |}
  | webcam => {| p_screen := p_screen streams; p_webcam := b |}
  end.

(** One element of the [streams] array of a presence message. *)
Record StreamInfo : Type := mkInfo {
  clientId : string;
  hasScreen : bool;
  hasWebcam : bool
}.

(** The two objects handed to [JSON.stringify].  The wire format (JSON text,
    base64 for the payload) is not modelled: [data] is the payload itself. *)
Inductive Message : Type :=
| FrameMsg (clientId : string) (streamType : StreamKind) (data : list byte)
| StreamsMsg (streams : list StreamInfo).

(** ** Viewers (the [ws] sockets held in [viewingClients]) *)

Inductive ReadyState : Type := CONNECTING | OPEN | CLOSING | CLOSED.

(** A viewer socket: its identity, its [readyState], whether its channel is
    broken (then [send] throws), and the messages the channel accepted. *)
Record Viewer : Type := mkViewer {
  ws : nat;
  readyState : ReadyState;
  broken : bool;
  received : list Message
}.

Definition is_open (client : Viewer) : bool :=
  match readyState client with OPEN => true | _ => false end.

(** [client.send(message)] *)
Definition send (client : Viewer) (message : Message) : Exc Viewer :=
  if broken client then Throw "send failed"
  else Ret {| ws := ws client; readyState := readyState client;
              broken := broken client;
              received := received client ++ [message] |}.

(** [viewingClients.forEach(callback)]: an exception of the callback ends
    the iteration and propagates. *)
Fixpoint forEach (callback : Viewer -> Exc Viewer) (clients : list Viewer)
  : Exc (list Viewer) :=
  match clients with
  | [] => Ret []
  | client :: rest =>
      client' <- callback client ;;
      rest' <- forEach callback rest ;;
      Ret (client' :: rest')
  end.

(** Lines 176-184 and 199-207: the body shared by both broadcasts. *)
Definition send_guarded (message : Message) (client : Viewer) : Exc Viewer :=
  if is_open client then
    try_catch (send client message) (fun error => Ret client)
  else Ret client.

(** Lines 167-185. *)
Definition broadcastFrame (clientId : string) (streamType : StreamKind)
    (frameData : list byte) (viewingClients : list Viewer) : Exc (list Viewer) :=
  let message := FrameMsg clientId streamType frameData in
  forEach (send_guarded message) viewingClients.

(** Lines 188-192 and 211-215. *)
Definition streamList (activeStreams : list (string * Presence)) : list StreamInfo :=
  map (fun entry => {| clientId := fst entry;
                       hasScreen := p_screen (snd entry);
                       hasWebcam := p_webcam (snd entry) |}) activeStreams.

(** ** The relay state: the three module-level collections *)

Record Server : Type := mkServer {
  activeStreams : list (string * Presence);
  streamBuffers : gmap string DecodeState;
  viewingClients : list Viewer
}.

(** Lines 187-208. *)
Definition broadcastStreamUpdate (s : Server) : Exc Server :=
  let message := StreamsMsg (streamList (activeStreams s)) in
  clients <- forEach (send_guarded message) (viewingClients s) ;;
  Ret {| activeStreams := activeStreams s;
         streamBuffers := streamBuffers s;
         viewingClients := clients |}.

(** Lines 210-225: no [try] around this [send]. *)
Definition sendStreamList (client : Viewer) (activeStreams : list (string * Presence))
  : Exc Viewer :=
  let message := StreamsMsg (streamList activeStreams) in
  if is_open client then send client message else Ret client.

(** Lines 89-91. *)
Definition bufferKey (clientId : string) (streamType : StreamKind) : string :=
  clientId +:+ ":" +:+ kind_name streamType.

(** The object [{ buf: Buffer.alloc(0), need: 4, payloadLen: 0 }]. *)
Definition fresh_state : DecodeState :=
  {| buf := []; need := 4; payloadLen := 0 |}.

(** Lines 93-101. *)
Definition registerStream (clientId : string) (streamType : StreamKind) (s : Server)
  : Exc Server :=
  let active :=
    if JsMap.has clientId (activeStreams s) then activeStreams s
    else JsMap.set clientId {| p_screen := false; p_webcam := false |} (activeStreams s) in
  match JsMap.get clientId active with
  | None => Throw "TypeError"
  | Some streams =>
      let active := JsMap.set clientId (set_flag streams streamType true) active in
      broadcastStreamUpdate
        {| activeStreams := active;
           streamBuffers := <[bufferKey clientId streamType := fresh_state]> (streamBuffers s);
           viewingClients := viewingClients s |}
  end.

(** Lines 103-126. *)
Definition feedChunk (clientId : string) (streamType : StreamKind)
    (chunk : list byte) (s : Server) : Exc Server :=
  let key := bufferKey clientId streamType in
  match streamBuffers s !! key with
  | None => Ret s
  | Some state =>
      r <- feed (broadcastFrame clientId streamType) state chunk (viewingClients s) ;;
      Ret {| activeStreams := activeStreams s;
             streamBuffers := <[key := fst r]> (streamBuffers s);
             viewingClients := snd r |}
  end.

(** Lines 128-139. *)
Definition unregisterStream (clientId : string) (streamType : StreamKind) (s : Server)
  : Exc Server :=
  let buffers := delete (bufferKey clientId streamType) (streamBuffers s) in
  let active :=
    match JsMap.get clientId (activeStreams s) with
    | Some clientStreams =>
        let clientStreams := set_flag clientStreams streamType false in
        if negb (p_screen clientStreams) && negb (p_webcam clientStreams)
        then JsMap.remove clientId (activeStreams s)
        else JsMap.set clientId clientStreams (activeStreams s)
    | None => activeStreams s
    end in
  broadcastStreamUpdate
    {| activeStreams := active; streamBuffers := buffers;
       viewingClients := viewingClients s |}.

(** ** The producer routes (lines 50-84) *)

(** [res.status(code).send(text)] and [res.status(code).end()]. *)
Record Response : Type := mkResponse {
  status : Z;
  body : string
}.

(** The events a request stream can emit. *)
Inductive ReqEvent : Type :=
| OnData (chunk : list byte)
| OnEnd
| OnError
| OnClose.

(** The calls made by the listeners of lines 59-64 and 77-82. *)
Inductive Call : Type :=
| CallFeedChunk (clientId : string) (streamType : StreamKind) (chunk : list byte)
| CallUnregisterStream (clientId : string) (streamType : StreamKind).

Definition run_call (c : Call) (s : Server) : Exc Server :=
  match c with
  | CallFeedChunk clientId streamType chunk => feedChunk clientId streamType chunk s
  | CallUnregisterStream clientId streamType => unregisterStream clientId streamType s
  end.

(** [req.on('data', ...)], [req.on('end', ...)], [req.on('error', ...)]:
    what the listeners registered for a connection call on each event.
    No listener is registered for ['close']. *)
Definition listeners (clientId : string) (streamType : StreamKind) (ev : ReqEvent)
  : list Call :=
  match ev with
  | OnData chunk => [CallFeedChunk clientId streamType chunk]
  | OnEnd => [CallUnregisterStream clientId streamType]
  | OnError => [CallUnregisterStream clientId streamType]
  | OnClose => []
  end.

(** An HTTP exchange as the server sees it: the relay state, the responses
    written to [res] so far, and the connection the listeners close over
    (none when the route returned before registering them). *)
Record Exchange : Type := mkExchange {
  server : Server;
  responses : list Response;
  listening : option (string * StreamKind)
}.

(** [!clientId] for [req.query.clientId]: a missing parameter is
    [undefined], and the empty string is falsy too. *)
Definition falsy (clientId : option string) : bool :=
  match clientId with
  | None => true
  | Some id => if decide (id = "") then true else false
  end.

(** Lines 50-66 ([streamType = screen]) and 68-84 ([streamType = webcam]). *)
Definition postStream (streamType : StreamKind) (query_clientId : option string)
    (s : Server) : Exc Exchange :=
  let rejected :=
    {| server := s;
       responses := [{| status := 400; body := "Missing clientId" |}];
       listening := None |} in
  if falsy query_clientId then Ret rejected
  else
    match query_clientId with
    | None => Ret rejected
    | Some clientId =>
        s' <- registerStream clientId streamType s ;;
        Ret {| server := s';
               responses := [{| status := 200; body := "" |}];
               listening := Some (clientId, streamType) |}
    end.

Fixpoint run_calls (calls : list Call) (s : Server) : Exc Server :=
  match calls with
  | [] => Ret s
  | c :: calls' => s' <- run_call c s ;; run_calls calls' s'
  end.

(** The request emits [ev]: its listeners run; none of them writes to [res]. *)
Definition emit_event (ev : ReqEvent) (x : Exchange) : Exc Exchange :=
  match listening x with
  | None => Ret x
  | Some (clientId, streamType) =>
      s' <- run_calls (listeners clientId streamType ev) (server x) ;;
      Ret {| server := s'; responses := responses x; listening := listening x |}
  end.

Fixpoint emit_events (trace : list ReqEvent) (x : Exchange) : Exc Exchange :=
  match trace with
  | [] => Ret x
  | ev :: trace' => x' <- emit_event ev x ;; emit_events trace' x'
  end.

(** How many times the listeners of a connection call [unregisterStream]
    over a trace of events. *)
Definition is_unregister (c : Call) : bool :=
  match c with CallUnregisterStream _ _ => true | _ => false end.

Definition unregister_runs (clientId : string) (streamType : StreamKind)
    (trace : list ReqEvent) : nat :=
  length (filter (fun c => is_unregister c = true)
            (concat (map (listeners clientId streamType) trace))).

(** ** The viewer endpoint (lines 150-165) *)

(** [viewingClients.add(ws)] and [viewingClients.delete(ws)]: a [Set]
    compares sockets by identity. *)
Definition viewers_add (client : Viewer) (clients : list Viewer) : list Viewer :=
  if decide (ws client ∈ map ws clients) then clients else clients ++ [client].

Definition viewers_delete (client : Viewer) (clients : list Viewer) : list Viewer :=
  filter (fun c => ws c ≠ ws client) clients.

Definition viewers_update (client : Viewer) (clients : list Viewer) : list Viewer :=
  map (fun c => if decide (ws c = ws client) then client else c) clients.

(** The ['connection'] listener up to line 155.  [sendStreamList] may
    throw after the socket was added; the relay state reached is returned
    next to the error.  The listeners of lines 157-164 are installed only
    when the call returned: see [close_listener_installed]. *)
Definition onViewerConnection (client : Viewer) (s : Server) : Server * option string :=
  let clients := viewers_add client (viewingClients s) in
  match sendStreamList client (activeStreams s) with
  | Ret client' =>
      ({| activeStreams := activeStreams s; streamBuffers := streamBuffers s;
          viewingClients := viewers_update client' clients |}, None)
  | Throw error =>
      ({| activeStreams := activeStreams s; streamBuffers := streamBuffers s;
          viewingClients := clients |}, Some error)
  end.

(** The ['close'] listener of a viewer socket (lines 157-160). *)
Definition onViewerClose (client : Viewer) (s : Server) : Server :=
  {| activeStreams := activeStreams s; streamBuffers := streamBuffers s;
     viewingClients := viewers_delete client (viewingClients s) |}.

(** Lines 157-164 are reached only when [sendStreamList(ws)] at line 155
    returned: a socket whose first [send] threw has no ['close'] listener. *)
Definition close_listener_installed (client : Viewer) (s : Server) : bool :=
  match sendStreamList client (activeStreams s) with
  | Ret _ => true
  | Throw _ => false
  end.

(** The socket whose connection was handled in the state [s0] emits
    ['close'] in the state [s]: its listener runs if it was installed. *)
Definition viewer_close_event (client : Viewer) (s0 s : Server) : Server :=
  if close_listener_installed client s0 then onViewerClose client s else s.

(** The relay as the process starts: nothing registered, no viewer. *)
Definition initial_server : Server :=
  {| activeStreams := []; streamBuffers := ∅; viewingClients := [] |}.

(** The decoder observed on its own: [record] stands for a consumer that
    keeps every frame handed to [broadcastFrame], in order. *)
Definition record (frame : list byte) (acc : list (list byte)) : Exc (list (list byte)) :=
  Ret (acc ++ [frame]).

Definition decode (state : DecodeState) (chunk : list byte)
  : Exc (DecodeState * list (list byte)) :=
  feed record state chunk [].

(** What a guarded [send] leaves of a viewer. *)
Definition deliver (message : Message) (client : Viewer) : Viewer :=
  if is_open client && negb (broken client) then
    {| ws := ws client; readyState := readyState client; broken := broken client;
       received := received client ++ [message] |}
  else client.

(** ** Statements about the routes and the decode states *)

Definition bad_request : Response := {| status := 400; body := "Missing clientId" |}.
Definition ok_response : Response := {| status := 200; body := "" |}.

(** The success response is written only once the request has emitted
    ['end']: nothing is written while the trace holds no [OnEnd]. *)
Definition success_sent_at_end (streamType : StreamKind) (id : string) (s : Server)
  : Prop :=
  forall trace x0 x,
    postStream streamType (Some id) s = Ret x0 ->
    emit_events trace x0 = Ret x ->
    OnEnd ∉ trace ->
    responses x = [].

(** Feeding the connection [(id1, k1)] leaves the decode state of the
    connection [(id2, k2)] as it was. *)
Definition decode_state_isolated (id1 : string) (k1 : StreamKind)
    (id2 : string) (k2 : StreamKind) (chunk : list byte) (s : Server) : Prop :=
  forall s',
    feedChunk id1 k1 chunk s = Ret s' ->
    streamBuffers s' !! bufferKey id2 k2 = streamBuffers s !! bufferKey id2 k2.

(** [streamBuffers.set(key, state)] on the relay state. *)
Definition with_state (key : string) (state : DecodeState) (s : Server) : Server :=
  {| activeStreams := activeStreams s;
     streamBuffers := <[key := state]> (streamBuffers s);
     viewingClients := viewingClients s |}.

(** The relay after two producers opened [POST /stream/screen?clientId=a]. *)
Definition two_connections_one_id : Server :=
  {| activeStreams := [("a", {| p_screen := true; p_webcam := false |})];
     streamBuffers := {[ "a:screen" := fresh_state ]};
     viewingClients := [] |}.

(** ** Statements about termination and fan-out *)

(** The three ways a request stream can terminate. *)
Definition terminal (ev : ReqEvent) : bool :=
  match ev with
  | OnData _ => false
  | OnEnd | OnError | OnClose => true
  end.

Definition end_or_error (ev : ReqEvent) : bool :=
  match ev with
  | OnEnd | OnError => true
  | OnData _ | OnClose => false
  end.

Definition ends_or_errors (trace : list ReqEvent) : nat :=
  length (filter (fun ev => end_or_error ev = true) trace).

(** Once a terminal event has fired, [unregisterStream] has run exactly
    once for the connection. *)
Definition deactivated_exactly_once (id : string) (k : StreamKind)
    (trace : list ReqEvent) : Prop :=
  (exists ev, ev ∈ trace /\ terminal ev = true) ->
  unregister_runs id k trace = 1%nat.

(** A viewer whose channel takes messages: open and not broken. *)
Definition healthy (client : Viewer) : bool :=
  is_open client && negb (broken client).

Definition is_streams (message : Message) : bool :=
  match message with StreamsMsg _ => true | FrameMsg _ _ _ => false end.

(** The number of presence messages a viewer has received. *)
Definition presence_updates (client : Viewer) : nat :=
  length (filter (fun message => is_streams message = true) (received client)).

(** [client'] is [client] after [n] more presence messages were published. *)
Definition advanced (n : nat) (client client' : Viewer) : Prop :=
  ws client' = ws client /\
  healthy client' = healthy client /\
  presence_updates client' =
    (presence_updates client + if healthy client then n else 0)%nat.

(** A failed delivery removes the failing viewer from the fan-out set. *)
Definition failure_drops_viewer (id : string) (k : StreamKind) (data : list byte)
    (clients : list Viewer) : Prop :=
  forall v clients',
    v ∈ clients -> is_open v = true -> broken v = true ->
    broadcastFrame id k data clients = Ret clients' ->
    ws v ∉ map ws clients'.

(** What a publish of [message] does to the list of viewers: the same
    sockets in the same order, the message appended for every healthy one,
    every other one untouched. *)
Definition published (message : Message) (before after : list Viewer) : Prop :=
  map ws after = map ws before /\
  Forall2 (fun v v' =>
             readyState v' = readyState v /\ broken v' = broken v /\
             received v' =
               if healthy v then received v ++ [message] else received v)
          before after.

(** ** Statements about the registry *)

(** A sequence of registry operations, as the producer connections issue
    them. *)
Inductive RegistryOp : Type :=
| OpRegister (clientId : string) (streamType : StreamKind)
| OpUnregister (clientId : string) (streamType : StreamKind).

Definition run_op (op : RegistryOp) (s : Server) : Exc Server :=
  match op with
  | OpRegister id k => registerStream id k s
  | OpUnregister id k => unregisterStream id k s
  end.

Fixpoint run_ops (ops : list RegistryOp) (s : Server) : Exc Server :=
  match ops with
  | [] => Ret s
  | op :: ops' => s' <- run_op op s ;; run_ops ops' s'
  end.

(** Whether the stream [(id, k)] is active after [ops], when it was
    [current] before: the last operation on that stream decides. *)
Fixpoint last_set (ops : list RegistryOp) (id : string) (k : StreamKind)
    (current : bool) : bool :=
  match ops with
  | [] => current
  | OpRegister id' k' :: ops' =>
      last_set ops' id k (if decide (id = id' /\ k = k') then true else current)
  | OpUnregister id' k' :: ops' =>
      last_set ops' id k (if decide (id = id' /\ k = k') then false else current)
  end.

Definition currently_active (ops : list RegistryOp) (id : string) (k : StreamKind)
  : bool :=
  last_set ops id k false.

(** The flag the registry holds for a stream; [false] without an entry. *)
Definition entry_flag (active : list (string * Presence)) (id : string)
    (k : StreamKind) : bool :=
  match JsMap.get id active with
  | Some streams => flag streams k
  | None => false
  end.

(** Every entry of the registry has at least one flag set. *)
Definition no_idle_entry (active : list (string * Presence)) : Prop :=
  forall id,
    JsMap.has id active = entry_flag active id screen || entry_flag active id webcam.

(** The relay with some viewers connected and nothing registered. *)
Definition idle_server (viewers : list Viewer) : Server :=
  {| activeStreams := []; streamBuffers := ∅; viewingClients := viewers |}.

(** ** Statements about the decoder *)

(** The producer side of the protocol (StreamClient.java, lines 87-89):
    [buf.putInt(frame.length); buf.put(frame)]. *)
Definition byte_of_Z (z : Z) : byte :=
  match Byte.of_N (Z.to_N (z mod 256)) with
  | Some b => b
  | None => x00
  end.

Definition putInt (n : Z) : list byte :=
  [byte_of_Z (Z.shiftr n 24); byte_of_Z (Z.shiftr n 16);
   byte_of_Z (Z.shiftr n 8); byte_of_Z n].

Definition encode_frame (frame : list byte) : list byte :=
  putInt (blen frame) ++ frame.

Definition encode_frames (frames : list (list byte)) : list byte :=
  concat (map encode_frame frames).

(** Feeding chunks one by one, the frames recorded in order. *)
Fixpoint decode_chunks (state : DecodeState) (chunks : list (list byte))
    (acc : list (list byte)) : Exc (DecodeState * list (list byte)) :=
  match chunks with
  | [] => Ret (state, acc)
  | chunk :: chunks' =>
      r <- feed record state chunk acc ;;
      decode_chunks (fst r) chunks' (snd r)
  end.

Definition emitted (r : Exc (DecodeState * list (list byte))) : option (list (list byte)) :=
  match r with
  | Ret (_, frames) => Some frames
  | Throw _ => None
  end.

(** Chunk invariance of the decoder on one frame sequence and one way of
    cutting its encoding into chunks. *)
Definition chunk_invariant (frames : list (list byte)) (chunks : list (list byte))
  : Prop :=
  concat chunks = encode_frames frames ->
  emitted (decode_chunks fresh_state chunks []) =
  emitted (decode_chunks fresh_state [encode_frames frames] []).

(** The relay after a viewer connected and a producer opened
    [POST /stream/screen?clientId=a]. *)
Definition one_stream_one_viewer : Server :=
  {| activeStreams := [("a", {| p_screen := true; p_webcam := false |})];
     streamBuffers := {[ "a:screen" := fresh_state ]};
     viewingClients :=
       [ {| ws := 1; readyState := OPEN; broken := false;
            received :=
              [ StreamsMsg [];
                StreamsMsg [ {| clientId := "a"; hasScreen := true;
                                hasWebcam := false |} ] ] |} ] |}.

(** A zero length prefix makes the decoder publish one empty payload and
    wait for the next length prefix. *)
Definition zero_length_frame_emitted (id : string) (k : StreamKind) (s : Server)
  : Prop :=
  forall state,
    streamBuffers s !! bufferKey id k = Some state ->
    need state = 4 -> buf state = [] ->
    exists s' state',
      feedChunk id k [x00; x00; x00; x00]%byte s = Ret s' /\
      viewingClients s' = map (deliver (FrameMsg id k [])) (viewingClients s) /\
      streamBuffers s' !! bufferKey id k = Some state' /\
      need state' = 4.

(** A payload the decoder can carry across chunk boundaries: within the
    10 MiB limit, and not four bytes long. *)
Definition carried (frame : list byte) : Prop :=
  blen frame <= MAX_FRAME /\ blen frame <> 4.

(** The frames the decoder emits for a frame sequence: those before the
    first empty payload. *)
Fixpoint expected (frames : list (list byte)) : list (list byte) :=
  match frames with
  | [] => []
  | [] :: _ => []
  | frame :: frames' => frame :: expected frames'
  end.

(** [pending state future frames]: with [future] still to arrive, the
    decoder in [state] is bound to emit [frames]. *)
Inductive pending : DecodeState -> list byte -> list (list byte) -> Prop :=
| AwaitPrefix state future frames :
    need state = 4 ->
    Forall carried frames ->
    buf state ++ future = encode_frames frames ->
    pending state future (expected frames)
| AwaitPayload state future frame frames :
    need state = blen frame ->
    frame <> [] ->
    carried frame ->
    Forall carried frames ->
    buf state ++ future = frame ++ encode_frames frames ->
    pending state future (frame :: expected frames)
| Stuck state future :
    need state = 0 ->
    pending state future [].

(** The loop has nothing left to do on the buffered bytes. *)
Definition settled (state : DecodeState) : Prop :=
  (need state = 4 /\ blen (buf state) < 4) \/
  (need state <> 4 /\ (need state <= 0 \/ blen (buf state) < need state)).

(** ** Statements about what the decoder emits *)

(** A payload as [feedChunk] hands it to [broadcastFrame]: not empty and
    within the limit. *)
Definition publishable (frame : list byte) : Prop :=
  0 < blen frame <= MAX_FRAME.

(** The values [need] takes: [4], or a declared length within the limit. *)
Definition bounded_need (state : DecodeState) : Prop :=
  0 <= need state <= MAX_FRAME.

(** ** Statements about the snapshot and the viewers *)

(** A well-formed presence snapshot: no client id twice, and every client
    listed has a screen or a webcam stream. *)
Definition well_formed_snapshot (streams : list StreamInfo) : Prop :=
  NoDup (map clientId streams) /\
  Forall (fun info => hasScreen info || hasWebcam info = true) streams.

(** The viewer is up to date with the registry: the last message its
    channel took is the current presence snapshot. *)
Definition up_to_date (active : list (string * Presence)) (client : Viewer) : Prop :=
  healthy client = true ->
  last (received client) = Some (StreamsMsg (streamList active)).

(** ** The producer client (StreamClient.java)

    [minimalJpeg()], lines 115-137. *)
Definition minimalJpeg : list byte :=
  [ xff; xd8; xff; xe0; x00; x10; x4a; x46;
    x49; x46; x00; x01; x01; x00; x00; x01;
    x00; x01; x00; x00; xff; xdb; x00; x43;
    x00; x08; x06; x06; x07; x06; x05; x08;
    x07; x07; x07; x09; x09; x08; x0a; x0c;
    x14; x0d; x0c; x0b; x0b; x0c; x19; x12;
    x13; x0f; x14; x1d; x1a; x1f; x1e; x1d;
    x1a; x1c; x1c; x20; x24; x2e; x27; x20;
    x22; x2c; x23; x1c; x1c; x28; x37; x29;
    x2c; x30; x31; x34; x34; x34; x1f; x27;
    x39; x3d; x38; x32; x3c; x2e; x33; x34;
    x32; xff; xc0; x00; x0b; x08; x00; x01;
    x00; x01; x01; x01; x11; x00; xff; xc4;
    x00; x1f; x00; x00; x01; x05; x01; x01;
    x01; x01; x01; x01; x00; x00; x00; x00;
    x00; x00; x00; x00; x00; x01; x02; x03;
    x04; x05; x06; x07; x08; x09; x0a; x0b;
    xff; xda; x00; x08; x01; x01; x00; x00;
    x3f; x00; x7b; xdf; xff; xd9 ]%byte.

(** Lines 68-69 and 79-80: the capture's latest frame, replaced by
    [minimalJpeg()] when it is [null] or empty. *)
Definition frame_to_send (latest : option (list byte)) : list byte :=
  match latest with
  | None => minimalJpeg
  | Some [] => minimalJpeg
  | Some frame => frame
  end.

(** Lines 87-90: the request body of [sendOne]. *)
Definition sendOne_body (frame : list byte) : list byte :=
  putInt (blen frame) ++ frame.

(** ** Statements about a whole producer request *)

(** The viewer after its channel was offered the messages in order. *)
Definition deliver_all (messages : list Message) (client : Viewer) : Viewer :=
  foldl (fun c message => deliver message c) client messages.

(** ** The viewer page (public/app.js, lines 73-100)

    [handleStreamsUpdate] up to [lastStreamList = active.slice()]: the
    update of the page's [streams] map and the list of clients shown.  The
    cards drawn from that list are outside the model.  [now] is the value
    of [Date.now()]. *)







(** * Properties *)

(** ** The decoding loop *)

Lemma loop_unfold_iteration {W : Type} (emit : list byte -> W -> Exc W) state w :
  loop emit state w =
  match iteration state with
  | Break state' => Ret (state', w)
  | Continue frame state' => w' <- emit frame w ;; loop emit state' w'
  end.
Proof.
  rewrite loop_equation_1.
  destruct (inspect (iteration state)) as [fl Hfl].
  destruct fl; simpl; rewrite Hfl; reflexivity.
Qed.

(** A consumer that never throws lets the loop run to its [break]; the
    consumer sees exactly the frames the recording consumer sees, in the
    same order. *)
Lemma loop_pure_consumer {W : Type} (emit : list byte -> W -> Exc W)
    (g : list byte -> W -> W) :
  (forall frame w, emit frame w = Ret (g frame w)) ->
  forall state acc w,
  exists state' frames,
    loop record state acc = Ret (state', acc ++ frames) /\
    loop emit state w = Ret (state', foldl (fun w frame => g frame w) w frames).
Proof.
  intros Hemit state.
  induction state as [state IH]
    using (induction_ltof1 _ (fun st => length (buf st))).
  intros acc w. rewrite !loop_unfold_iteration.
  destruct (iteration state) as [state'|frame state'] eqn:Hit.
  - exists state', []. rewrite app_nil_r. split; reflexivity.
  - rewrite Hemit. unfold record at 1. simpl.
    apply iteration_shrinks in Hit.
    destruct (IH state' Hit (acc ++ [frame]) (g frame w))
      as (st & frames & Hrec & Hrun).
    exists st, (frame :: frames). split.
    + rewrite Hrec. f_equal. f_equal. rewrite <- app_assoc. reflexivity.
    + rewrite Hrun. reflexivity.
Qed.

(** ** Fan-out *)

Lemma send_guarded_deliver message client :
  send_guarded message client = Ret (deliver message client).
Proof.
  unfold send_guarded, deliver, send, try_catch.
  destruct (is_open client); [|reflexivity].
  destruct (broken client); reflexivity.
Qed.

Lemma forEach_send_guarded message clients :
  forEach (send_guarded message) clients = Ret (map (deliver message) clients).
Proof.
  induction clients as [|client rest IH]; simpl; [reflexivity|].
  rewrite send_guarded_deliver, IH. reflexivity.
Qed.

Lemma deliver_ws message client : ws (deliver message client) = ws client.
Proof. unfold deliver. destruct (is_open client && negb (broken client)); reflexivity. Qed.

Lemma map_ws_deliver message clients :
  map ws (map (deliver message) clients) = map ws clients.
Proof.
  rewrite map_map. apply map_ext. intros client. apply deliver_ws.
Qed.

Lemma broadcastFrame_deliver clientId streamType frameData clients :
  broadcastFrame clientId streamType frameData clients =
  Ret (map (deliver (FrameMsg clientId streamType frameData)) clients).
Proof. unfold broadcastFrame. apply forEach_send_guarded. Qed.

Lemma broadcastStreamUpdate_deliver s :
  broadcastStreamUpdate s =
  Ret {| activeStreams := activeStreams s;
         streamBuffers := streamBuffers s;
         viewingClients :=
           map (deliver (StreamsMsg (streamList (activeStreams s)))) (viewingClients s) |}.
Proof. unfold broadcastStreamUpdate. rewrite forEach_send_guarded. reflexivity. Qed.

(** ** Insertion-ordered maps *)

Section JsMapFacts.
Context {V : Type}.
Implicit Types (m : list (string * V)) (k : string) (v : V).

Lemma get_set_eq k v m : JsMap.get k (JsMap.set k v m) = Some v.
Proof.
  induction m as [|[k' v'] m IH]; simpl.
  - destruct (decide (k = k)); congruence.
  - destruct (decide (k = k')) as [->|Hne]; simpl.
    + destruct (decide (k' = k')); congruence.
    + destruct (decide (k = k')); [contradiction|exact IH].
Qed.

Lemma get_set_ne k k' v m :
  k <> k' -> JsMap.get k' (JsMap.set k v m) = JsMap.get k' m.
Proof.
  intros Hne. induction m as [|[k0 v0] m IH]; simpl.
  - destruct (decide (k' = k)); congruence.
  - destruct (decide (k = k0)) as [->|Hk]; simpl.
    + destruct (decide (k' = k0)); congruence.
    + destruct (decide (k' = k0)); [reflexivity|exact IH].
Qed.

Lemma get_remove_eq k m : JsMap.get k (JsMap.remove k m) = None.
Proof.
  induction m as [|[k' v'] m IH]; simpl; [reflexivity|].
  destruct (decide (k = k')) as [->|Hne]; [exact IH|].
  simpl. destruct (decide (k = k')); [contradiction|exact IH].
Qed.

Lemma get_remove_ne k k' m :
  k <> k' -> JsMap.get k' (JsMap.remove k m) = JsMap.get k' m.
Proof.
  intros Hne. induction m as [|[k0 v0] m IH]; simpl; [reflexivity|].
  destruct (decide (k = k0)) as [->|Hk]; simpl.
  - destruct (decide (k' = k0)); [congruence|exact IH].
  - destruct (decide (k' = k0)); [reflexivity|exact IH].
Qed.

Lemma get_keys k m : k ∈ JsMap.keys m <-> JsMap.has k m = true.
Proof.
  unfold JsMap.has, JsMap.keys.
  induction m as [|[k' v'] m IH]; simpl.
  - split; [intros H; inversion H|discriminate].
  - destruct (decide (k = k')) as [->|Hne].
    + split; [reflexivity|intros _; left].
    + rewrite <- IH. split.
      * intros H. inversion H; subst; [contradiction|assumption].
      * intros H. right. exact H.
Qed.
End JsMapFacts.

(** The snapshot lists exactly the keys of the registry. *)
Lemma streamList_clientIds (active : list (string * Presence)) :
  map clientId (streamList active) = JsMap.keys active.
Proof.
  unfold streamList, JsMap.keys. rewrite map_map. reflexivity.
Qed.

(** ** The three operations always return *)

Lemma registerStream_returns id k s :
  exists active,
    registerStream id k s =
    Ret {| activeStreams := active;
           streamBuffers := <[bufferKey id k := fresh_state]> (streamBuffers s);
           viewingClients :=
             map (deliver (StreamsMsg (streamList active))) (viewingClients s) |}
    /\ (exists streams,
          JsMap.get id active = Some (set_flag streams k true) /\
          streams = default {| p_screen := false; p_webcam := false |}
                      (JsMap.get id (activeStreams s)))
    /\ (forall id', id <> id' ->
          JsMap.get id' active = JsMap.get id' (activeStreams s)).
Proof.
  unfold registerStream, JsMap.has.
  destruct (JsMap.get id (activeStreams s)) as [streams|] eqn:Hget.
  - rewrite Hget. rewrite broadcastStreamUpdate_deliver. simpl.
    eexists. split; [reflexivity|]. split.
    + exists streams. split; [apply get_set_eq|reflexivity].
    + intros id' Hne. apply get_set_ne. exact Hne.
  - rewrite get_set_eq. rewrite broadcastStreamUpdate_deliver. simpl.
    eexists. split; [reflexivity|]. split.
    + eexists. split; [apply get_set_eq|reflexivity].
    + intros id' Hne. rewrite !get_set_ne by exact Hne. reflexivity.
Qed.

Lemma unregisterStream_returns id k s :
  exists active,
    unregisterStream id k s =
    Ret {| activeStreams := active;
           streamBuffers := delete (bufferKey id k) (streamBuffers s);
           viewingClients :=
             map (deliver (StreamsMsg (streamList active))) (viewingClients s) |}
    /\ JsMap.get id active =
         match JsMap.get id (activeStreams s) with
         | Some streams =>
             if flag streams (other_kind k)
             then Some (set_flag streams k false) else None
         | None => None
         end
    /\ (forall id', id <> id' ->
          JsMap.get id' active = JsMap.get id' (activeStreams s)).
Proof.
  unfold unregisterStream. rewrite broadcastStreamUpdate_deliver. simpl.
  eexists. split; [reflexivity|].
  destruct (JsMap.get id (activeStreams s)) as [streams|] eqn:Hget.
  - destruct streams as [sc wc], k; simpl.
    + destruct wc; simpl; split;
        [apply get_set_eq | intros; by apply get_set_ne
        |apply get_remove_eq | intros; by apply get_remove_ne].
    + rewrite andb_true_r. destruct sc; simpl; split;
        [apply get_set_eq | intros; by apply get_set_ne
        |apply get_remove_eq | intros; by apply get_remove_ne].
  - split; [exact Hget|reflexivity].
Qed.

Lemma feedChunk_returns id k chunk s :
  exists s', feedChunk id k chunk s = Ret s'.
Proof.
  unfold feedChunk.
  destruct (streamBuffers s !! bufferKey id k) as [state|]; [|eauto].
  unfold feed.
  destruct (loop_pure_consumer (broadcastFrame id k)
              (fun frame => map (deliver (FrameMsg id k frame)))
              (broadcastFrame_deliver id k)
              {| buf := buf state ++ chunk; need := need state;
                 payloadLen := payloadLen state |} [] (viewingClients s))
    as (st & frames & _ & Hrun).
  rewrite Hrun. simpl. eauto.
Qed.

(** ** Buffer keys *)

Lemma string_length_app (a b : string) :
  String.length (a +:+ b) = (String.length a + String.length b)%nat.
Proof. induction a as [|c a IH]; simpl; [reflexivity|]. rewrite IH. reflexivity. Qed.

Lemma string_app_inj_suffix (a b s t : string) :
  String.length s = String.length t ->
  a +:+ s = b +:+ t -> a = b /\ s = t.
Proof.
  intros Hlen. revert b. induction a as [|c a IH]; intros [|c' b] Heq.
  - split; [reflexivity|exact Heq].
  - exfalso. change (s = String c' (b +:+ t)) in Heq. subst s.
    simpl in Hlen. rewrite string_length_app in Hlen. lia.
  - exfalso. change (String c (a +:+ s) = t) in Heq. subst t.
    simpl in Hlen. rewrite string_length_app in Hlen. lia.
  - change (String c (a +:+ s) = String c' (b +:+ t)) in Heq.
    injection Heq as -> Heq. destruct (IH b Heq) as [-> ->]. split; reflexivity.
Qed.

Lemma bufferKey_inj id1 k1 id2 k2 :
  bufferKey id1 k1 = bufferKey id2 k2 -> id1 = id2 /\ k1 = k2.
Proof.
  unfold bufferKey. intros Heq.
  apply string_app_inj_suffix in Heq; [|destruct k1, k2; reflexivity].
  destruct Heq as [-> Hk]. split; [reflexivity|].
  destruct k1, k2; try reflexivity; cbv in Hk; discriminate.
Qed.

(** ** Events of an exchange *)

Lemma run_calls_listeners_returns id k ev s :
  exists s', run_calls (listeners id k ev) s = Ret s'.
Proof.
  destruct ev as [chunk| | |]; simpl.
  - destruct (feedChunk_returns id k chunk s) as [s' ->]. simpl. eauto.
  - destruct (unregisterStream_returns id k s) as (active & -> & _). simpl. eauto.
  - destruct (unregisterStream_returns id k s) as (active & -> & _). simpl. eauto.
  - eauto.
Qed.

Lemma emit_events_returns trace x :
  exists x', emit_events trace x = Ret x' /\
             responses x' = responses x /\ listening x' = listening x.
Proof.
  revert x. induction trace as [|ev trace IH]; intros x; simpl.
  - exists x. repeat split.
  - unfold emit_event. destruct (listening x) as [[id k]|] eqn:Hl.
    + destruct (run_calls_listeners_returns id k ev (server x)) as [s' ->]. simpl.
      destruct (IH {| server := s'; responses := responses x;
                      listening := Some (id, k) |}) as (x' & -> & Hr & Hls).
      exists x'. simpl in *. repeat split; assumption.
    + simpl. destruct (IH x) as (x' & -> & Hr & Hls). exists x'.
      rewrite <- Hl. repeat split; assumption.
Qed.

Lemma emit_events_no_listener trace x :
  listening x = None -> emit_events trace x = Ret x.
Proof.
  intros Hl. induction trace as [|ev trace IH]; simpl; [reflexivity|].
  unfold emit_event. rewrite Hl. simpl. exact IH.
Qed.

(** ** Chunks for a key without an entry *)

(** C10: when [streamBuffers] holds no entry for [bufferKey clientId
    streamType] (the stream was never registered, or [unregisterStream]
    has deleted it), [feedChunk] returns at once: the relay state is
    returned as it was, so no viewer receives a frame and the registry, the
    buffers and the viewer set are unchanged. *)
Theorem feedChunk_without_entry id k chunk s :
  (streamBuffers s !! bufferKey id k = None -> feedChunk id k chunk s = Ret s) /\
  (forall s', unregisterStream id k s = Ret s' -> feedChunk id k chunk s' = Ret s').
Proof.
  split.
  - intros Hnone. unfold feedChunk. rewrite Hnone. reflexivity.
  - intros s' Hun. destruct (unregisterStream_returns id k s) as (active & Heq & _).
    rewrite Heq in Hun. injection Hun as <-.
    unfold feedChunk. simpl. rewrite lookup_delete_eq. reflexivity.
Qed.

Lemma feedChunk_without_entry_witness :
  streamBuffers initial_server !! bufferKey "a" screen = None /\
  feedChunk "a" screen [x00; x01]%byte initial_server = Ret initial_server.
Proof.
  split; [reflexivity|].
  apply (feedChunk_without_entry "a" screen [x00; x01]%byte initial_server).
  reflexivity.
Defined.

(** ** Requests without a client id *)

(** C7: a POST to either route whose [clientId] is missing is answered
    with status 400 and the text [Missing clientId]; the relay state is
    returned unchanged (registry, buffers, viewers and what the viewers
    received), and since no listener was registered no later event of that
    request changes it either. *)
Theorem missing_clientId_rejected k s trace :
  let rejected := {| server := s; responses := [bad_request]; listening := None |} in
  postStream k None s = Ret rejected /\
  postStream k (Some "") s = Ret rejected /\
  emit_events trace rejected = Ret rejected.
Proof.
  intros rejected. split; [reflexivity|]. split; [reflexivity|].
  apply emit_events_no_listener. reflexivity.
Qed.

(** ** The success response *)

Lemma postStream_accepts k id s :
  id <> "" ->
  exists s', registerStream id k s = Ret s' /\
    postStream k (Some id) s =
    Ret {| server := s'; responses := [ok_response]; listening := Some (id, k) |}.
Proof.
  intros Hid. destruct (registerStream_returns id k s) as (active & Hreg & _).
  eexists. split; [exact Hreg|].
  unfold postStream, falsy. destruct (decide (id = "")); [contradiction|].
  rewrite Hreg. reflexivity.
Qed.

(** C8, as stated, fails: the 200 response is written by the route itself,
    before the request has emitted any event. *)
Lemma success_sent_at_end_counterexample :
  ~ success_sent_at_end screen "a" initial_server.
Proof.
  intros Hclaim.
  assert (Hsent : exists x0, postStream screen (Some "a") initial_server = Ret x0 /\
                             responses x0 = [ok_response]).
  { eexists. split; reflexivity. }
  destruct Hsent as (x0 & Hpost & Hresp).
  specialize (Hclaim [] x0 x0 Hpost eq_refl).
  rewrite Hclaim in Hresp; [discriminate|].
  intros Hin. inversion Hin.
Qed.

(** C8, amended: for a POST with a non-empty [clientId] the success
    response (status 200, empty body) is written exactly once, by the route
    handler as soon as the stream is registered; whatever events the
    request emits afterwards, the responses written stay that single one. *)
Theorem success_response_sent_on_accept k id s trace :
  id <> "" ->
  exists x0 x,
    postStream k (Some id) s = Ret x0 /\
    responses x0 = [ok_response] /\
    emit_events trace x0 = Ret x /\
    responses x = [ok_response].
Proof.
  intros Hid. destruct (postStream_accepts k id s Hid) as (s' & _ & Hpost).
  destruct (emit_events_returns trace
              {| server := s'; responses := [ok_response]; listening := Some (id, k) |})
    as (x & Hrun & Hresp & _).
  eexists. exists x. split; [exact Hpost|]. split; [reflexivity|].
  split; [exact Hrun|exact Hresp].
Qed.

Lemma success_response_sent_on_accept_witness :
  "a" <> "" /\
  exists x0 x,
    postStream webcam (Some "a") initial_server = Ret x0 /\
    responses x0 = [ok_response] /\
    emit_events [OnData [x00]%byte; OnEnd] x0 = Ret x /\
    responses x = [ok_response].
Proof.
  split; [discriminate|].
  apply (success_response_sent_on_accept webcam "a" initial_server
           [OnData [x00]%byte; OnEnd]).
  discriminate.
Defined.

(** ** Decode states of distinct connections *)

Lemma two_connections_one_id_reached :
  (s1 <- registerStream "a" screen initial_server ;; registerStream "a" screen s1)
  = Ret two_connections_one_id.
Proof. reflexivity. Qed.

(** C9 fails on the code: the buffers are announced as per-connection
    (server.js, line 86) but are kept per [clientId:streamType].  Two open
    connections that carry the same client id and kind are served by one
    decode state: the second registration replaces the state of the first,
    and a byte fed on the first connection is buffered in the state the
    second one reads. *)
Theorem same_id_connections_share_decode_state :
  (s1 <- registerStream "a" screen initial_server ;; registerStream "a" screen s1)
  = Ret two_connections_one_id /\
  feedChunk "a" screen [x00]%byte two_connections_one_id
  = Ret (with_state (bufferKey "a" screen)
           {| buf := [x00]%byte; need := 4; payloadLen := 0 |}
           two_connections_one_id) /\
  ~ decode_state_isolated "a" screen "a" screen [x00]%byte two_connections_one_id.
Proof.
  split; [reflexivity|]. split; [vm_compute; reflexivity|].
  intros Hclaim.
  specialize (Hclaim _ eq_refl).
  vm_compute in Hclaim. discriminate.
Qed.

Lemma feedChunk_other_key id1 k1 chunk key2 st2 s s' :
  bufferKey id1 k1 <> key2 ->
  feedChunk id1 k1 chunk s = Ret s' ->
  streamBuffers s' !! key2 = streamBuffers s !! key2 /\
  feedChunk id1 k1 chunk (with_state key2 st2 s) = Ret (with_state key2 st2 s').
Proof.
  intros Hne. unfold feedChunk, with_state. simpl.
  rewrite lookup_insert_ne by congruence.
  destruct (streamBuffers s !! bufferKey id1 k1) as [state|].
  - destruct (feed _ state chunk (viewingClients s)) as [[st' clients']|error];
      simpl; [|discriminate].
    intros [= <-]. simpl. split.
    + apply lookup_insert_ne. exact Hne.
    + rewrite insert_insert_ne by congruence. reflexivity.
  - intros [= <-]. split; reflexivity.
Qed.

(** X18: the decode state is kept per [(clientId, streamType)]: distinct
    pairs have distinct buffer keys, and feeding the stream of one pair
    neither modifies the decode state of the stream of another pair nor
    depends on it (replacing that other state commutes with the call). *)
Theorem decode_state_per_key id1 k1 id2 k2 chunk s :
  (id1, k1) <> (id2, k2) ->
  bufferKey id1 k1 <> bufferKey id2 k2 /\
  exists s',
    feedChunk id1 k1 chunk s = Ret s' /\
    streamBuffers s' !! bufferKey id2 k2 = streamBuffers s !! bufferKey id2 k2 /\
    forall st2,
      feedChunk id1 k1 chunk (with_state (bufferKey id2 k2) st2 s)
      = Ret (with_state (bufferKey id2 k2) st2 s').
Proof.
  intros Hpair.
  assert (Hkey : bufferKey id1 k1 <> bufferKey id2 k2).
  { intros Heq. apply bufferKey_inj in Heq. destruct Heq as [-> ->]. congruence. }
  split; [exact Hkey|].
  destruct (feedChunk_returns id1 k1 chunk s) as [s' Hfeed].
  exists s'. split; [exact Hfeed|]. split.
  - eapply (feedChunk_other_key _ _ _ _ fresh_state); eassumption.
  - intros st2. eapply feedChunk_other_key; eassumption.
Qed.

Lemma decode_state_per_key_witness :
  ("a", screen) <> ("a", webcam) /\
  bufferKey "a" screen <> bufferKey "a" webcam /\
  exists s',
    feedChunk "a" screen [x00]%byte two_connections_one_id = Ret s' /\
    streamBuffers s' !! bufferKey "a" webcam
    = streamBuffers two_connections_one_id !! bufferKey "a" webcam /\
    forall st2,
      feedChunk "a" screen [x00]%byte
        (with_state (bufferKey "a" webcam) st2 two_connections_one_id)
      = Ret (with_state (bufferKey "a" webcam) st2 s').
Proof.
  split; [discriminate|].
  apply (decode_state_per_key "a" screen "a" webcam [x00]%byte two_connections_one_id).
  discriminate.
Defined.

(** ** Delivery to one viewer *)

Lemma deliver_healthy message client :
  healthy (deliver message client) = healthy client.
Proof.
  unfold deliver, healthy, is_open.
  destruct (readyState client) eqn:Hr, (broken client) eqn:Hb; simpl;
    rewrite ?Hr, ?Hb; reflexivity.
Qed.

Lemma deliver_received message client :
  received (deliver message client) =
  if healthy client then received client ++ [message] else received client.
Proof.
  unfold deliver, healthy.
  destruct (is_open client && negb (broken client)); reflexivity.
Qed.

Lemma deliver_presence_updates message client :
  presence_updates (deliver message client) =
  (presence_updates client +
   if healthy client && is_streams message then 1 else 0)%nat.
Proof.
  unfold presence_updates. rewrite deliver_received.
  destruct (healthy client); simpl; [|lia].
  rewrite filter_app, length_app. f_equal.
  destruct message; reflexivity.
Qed.

Lemma published_deliver message clients :
  published message clients (map (deliver message) clients).
Proof.
  split; [apply map_ws_deliver|].
  induction clients as [|client rest IH]; simpl; constructor; [|exact IH].
  rewrite deliver_received. unfold deliver.
  destruct (is_open client && negb (broken client)); auto.
Qed.

(** ** Isolation of delivery failures *)

(** C6, as stated, fails: a viewer whose [send] throws stays in
    [viewingClients] after the publish. *)
Lemma failure_drops_viewer_counterexample :
  ~ failure_drops_viewer "a" screen [x01]%byte
      [ {| ws := 1; readyState := OPEN; broken := true; received := [] |};
        {| ws := 2; readyState := OPEN; broken := false; received := [] |} ].
Proof.
  intros Hclaim.
  specialize (Hclaim {| ws := 1; readyState := OPEN; broken := true; received := [] |}
                _ ltac:(left) eq_refl eq_refl eq_refl).
  apply Hclaim. simpl. left.
Qed.

(** C6, amended: a publish of a frame or of a presence message never
    raises to the publisher; a viewer whose [send] throws is skipped and
    stays in the viewer set (only its ['close'] listener removes it), and
    every other open viewer still receives the message.  A viewer leaves
    the set when its socket closes. *)
Theorem publish_isolates_failures id k data s :
  (exists clients',
     broadcastFrame id k data (viewingClients s) = Ret clients' /\
     published (FrameMsg id k data) (viewingClients s) clients') /\
  (exists s',
     broadcastStreamUpdate s = Ret s' /\
     activeStreams s' = activeStreams s /\
     streamBuffers s' = streamBuffers s /\
     published (StreamsMsg (streamList (activeStreams s)))
       (viewingClients s) (viewingClients s')) /\
  (forall client, ws client ∉ map ws (viewingClients (onViewerClose client s))).
Proof.
  split; [|split].
  - eexists. split; [apply broadcastFrame_deliver|apply published_deliver].
  - eexists. split; [apply broadcastStreamUpdate_deliver|]. simpl.
    split; [reflexivity|]. split; [reflexivity|apply published_deliver].
  - intros client. unfold onViewerClose, viewers_delete. simpl.
    intros Hin. apply list_elem_of_fmap in Hin. destruct Hin as (c & Hws & Hc).
    apply list_elem_of_filter in Hc. destruct Hc as [Hne _]. congruence.
Qed.

(** ** Deactivation on the terminal events *)

Lemma advanced_refl client : advanced 0 client client.
Proof.
  unfold advanced. repeat split. destruct (healthy client); lia.
Qed.

Lemma advanced_trans n m c1 c2 c3 :
  advanced n c1 c2 -> advanced m c2 c3 -> advanced (n + m) c1 c3.
Proof.
  unfold advanced. intros (Hw1 & Hh1 & Hp1) (Hw2 & Hh2 & Hp2).
  split; [congruence|]. split; [congruence|].
  rewrite Hp2, Hp1, Hh1. destruct (healthy c1); lia.
Qed.

Lemma advanced_all_refl clients : Forall2 (advanced 0) clients clients.
Proof. induction clients; constructor; [apply advanced_refl|assumption]. Qed.

Lemma advanced_all_trans n m l1 l2 l3 :
  Forall2 (advanced n) l1 l2 -> Forall2 (advanced m) l2 l3 ->
  Forall2 (advanced (n + m)) l1 l3.
Proof.
  intros H12. revert l3. induction H12 as [|c1 c2 l1 l2 Hc H12 IH]; intros l3 H23.
  - inversion H23. constructor.
  - inversion H23 as [|? c3 ? l3' Hc' H23']; subst. constructor.
    + eapply advanced_trans; eassumption.
    + apply IH. assumption.
Qed.

Lemma advanced_deliver message clients :
  Forall2 (advanced (if is_streams message then 1 else 0))
    clients (map (deliver message) clients).
Proof.
  induction clients as [|client rest IH]; simpl; constructor; [|exact IH].
  unfold advanced. split; [apply deliver_ws|]. split; [apply deliver_healthy|].
  rewrite deliver_presence_updates.
  destruct (healthy client), (is_streams message); reflexivity.
Qed.

Lemma advanced_frames id k frames clients :
  Forall2 (advanced 0) clients
    (foldl (fun w frame => map (deliver (FrameMsg id k frame)) w) clients frames).
Proof.
  revert clients. induction frames as [|frame frames IH]; intros clients; simpl.
  - apply advanced_all_refl.
  - apply (advanced_all_trans 0 0 _ (map (deliver (FrameMsg id k frame)) clients)).
    + apply (advanced_deliver (FrameMsg id k frame)).
    + apply IH.
Qed.

(** [feedChunk] publishes frames only. *)
Lemma feedChunk_publishes_frames id k chunk s :
  exists s', feedChunk id k chunk s = Ret s' /\
             activeStreams s' = activeStreams s /\
             Forall2 (advanced 0) (viewingClients s) (viewingClients s').
Proof.
  unfold feedChunk.
  destruct (streamBuffers s !! bufferKey id k) as [state|].
  - unfold feed.
    destruct (loop_pure_consumer (broadcastFrame id k)
                (fun frame => map (deliver (FrameMsg id k frame)))
                (broadcastFrame_deliver id k)
                {| buf := buf state ++ chunk; need := need state;
                   payloadLen := payloadLen state |} [] (viewingClients s))
      as (st & frames & _ & Hrun).
    rewrite Hrun. simpl. eexists. split; [reflexivity|]. simpl.
    split; [reflexivity|apply advanced_frames].
  - exists s. split; [reflexivity|]. split; [reflexivity|apply advanced_all_refl].
Qed.

(** [unregisterStream] publishes one presence message. *)
Lemma unregisterStream_publishes_once id k s :
  exists s', unregisterStream id k s = Ret s' /\
             Forall2 (advanced 1) (viewingClients s) (viewingClients s').
Proof.
  destruct (unregisterStream_returns id k s) as (active & Hun & _).
  eexists. split; [exact Hun|]. simpl.
  apply (advanced_deliver (StreamsMsg (streamList active))).
Qed.

Lemma unregister_runs_cons id k ev trace :
  unregister_runs id k (ev :: trace) =
  ((if end_or_error ev then 1 else 0) + unregister_runs id k trace)%nat.
Proof.
  unfold unregister_runs. simpl. rewrite filter_app, length_app.
  f_equal. destruct ev; reflexivity.
Qed.

Lemma ends_or_errors_cons ev trace :
  ends_or_errors (ev :: trace) =
  ((if end_or_error ev then 1 else 0) + ends_or_errors trace)%nat.
Proof.
  unfold ends_or_errors. destruct ev; reflexivity.
Qed.

Lemma emit_event_advances id k ev x :
  listening x = Some (id, k) ->
  exists x', emit_event ev x = Ret x' /\ listening x' = Some (id, k) /\
    Forall2 (advanced (if end_or_error ev then 1 else 0))
      (viewingClients (server x)) (viewingClients (server x')).
Proof.
  intros Hl. unfold emit_event. rewrite Hl.
  destruct ev as [chunk| | |]; simpl.
  - destruct (feedChunk_publishes_frames id k chunk (server x)) as (s' & -> & _ & Hadv).
    simpl. eexists. split; [reflexivity|]. split; [reflexivity|exact Hadv].
  - destruct (unregisterStream_publishes_once id k (server x)) as (s' & -> & Hadv).
    simpl. eexists. split; [reflexivity|]. split; [reflexivity|exact Hadv].
  - destruct (unregisterStream_publishes_once id k (server x)) as (s' & -> & Hadv).
    simpl. eexists. split; [reflexivity|]. split; [reflexivity|exact Hadv].
  - eexists. split; [reflexivity|]. split; [reflexivity|apply advanced_all_refl].
Qed.

(** C5, as stated, fails: when the connection is closed abruptly and only
    ['close'] fires, no listener runs and [unregisterStream] is not called. *)
Lemma deactivated_exactly_once_counterexample :
  ~ deactivated_exactly_once "a" screen [OnData [x00]%byte; OnClose].
Proof.
  intros Hclaim. unfold deactivated_exactly_once in Hclaim.
  assert (Hruns : unregister_runs "a" screen [OnData [x00]%byte; OnClose] = 0%nat)
    by reflexivity.
  rewrite Hclaim in Hruns; [discriminate|].
  exists OnClose. split; [|reflexivity]. right. left.
Qed.

(** With no guard against a second run, ['error'] followed by ['end'] on
    one connection calls [unregisterStream] twice. *)
Lemma deactivated_twice :
  unregister_runs "a" screen [OnError; OnEnd] = 2%nat.
Proof. reflexivity. Qed.

(** C5, amended: for a connection in the Streaming state the listeners
    call [unregisterStream] once for every ['end'] or ['error'] event the
    request emits, and for no other event: exactly once when exactly one of
    the two fires, not at all when only ['close'] fires, once more for each
    further one.  Each run publishes one presence message, so every healthy
    viewer has received that many more presence messages after the
    trace. *)
Theorem deactivation_once_per_end_or_error id k trace x :
  listening x = Some (id, k) ->
  unregister_runs id k trace = ends_or_errors trace /\
  exists x',
    emit_events trace x = Ret x' /\
    Forall2 (advanced (ends_or_errors trace))
      (viewingClients (server x)) (viewingClients (server x')).
Proof.
  revert x. induction trace as [|ev trace IH]; intros x Hl.
  - split; [reflexivity|]. exists x. split; [reflexivity|apply advanced_all_refl].
  - destruct (emit_event_advances id k ev x Hl) as (x1 & Hev & Hl1 & Hadv1).
    destruct (IH x1 Hl1) as (Hcount & x' & Hrun & Hadv).
    split.
    + rewrite unregister_runs_cons, ends_or_errors_cons, Hcount. reflexivity.
    + exists x'. simpl. rewrite Hev. simpl. split; [exact Hrun|].
      rewrite ends_or_errors_cons. eapply advanced_all_trans; eassumption.
Qed.

Lemma deactivation_once_per_end_or_error_witness :
  let x := {| server := one_stream_one_viewer; responses := [ok_response];
              listening := Some ("a", screen) |} in
  let trace := [OnData [x00]%byte; OnError; OnClose] in
  listening x = Some ("a", screen) /\
  unregister_runs "a" screen trace = 1%nat /\
  exists x',
    emit_events trace x = Ret x' /\
    Forall2 (advanced 1) (viewingClients (server x)) (viewingClients (server x')).
Proof.
  intros x trace. split; [reflexivity|].
  apply (deactivation_once_per_end_or_error "a" screen trace x).
  reflexivity.
Defined.

(** ** The registry *)

Lemma flag_set_flag streams k k' b :
  flag (set_flag streams k b) k' = if decide (k' = k) then b else flag streams k'.
Proof. destruct streams, k, k'; reflexivity. Qed.

Lemma registerStream_flags id k s :
  exists s', registerStream id k s = Ret s' /\
    JsMap.has id (activeStreams s') = true /\
    (forall id', id <> id' ->
       JsMap.get id' (activeStreams s') = JsMap.get id' (activeStreams s)) /\
    (forall id' k', entry_flag (activeStreams s') id' k' =
       if decide (id' = id /\ k' = k) then true
       else entry_flag (activeStreams s) id' k').
Proof.
  destruct (registerStream_returns id k s)
    as (active & Hreg & (streams & Hget & Hstreams) & Hother).
  eexists. split; [exact Hreg|]. simpl. split; [|split].
  - unfold JsMap.has. rewrite Hget. reflexivity.
  - exact Hother.
  - intros id' k'. unfold entry_flag.
    destruct (decide (id' = id)) as [->|Hid].
    + rewrite Hget, flag_set_flag.
      destruct (decide (k' = k)) as [->|Hk].
      * destruct (decide (id = id /\ k = k)) as [_|[]]; auto.
      * destruct (decide (id = id /\ k' = k)) as [[_ ?]|_]; [contradiction|].
        subst streams. destruct (JsMap.get id (activeStreams s)); [reflexivity|].
        destruct k'; reflexivity.
    + rewrite Hother by congruence.
      destruct (decide (id' = id /\ k' = k)) as [[? _]|_]; [contradiction|reflexivity].
Qed.

Lemma unregisterStream_flags id k s :
  exists s', unregisterStream id k s = Ret s' /\
    JsMap.has id (activeStreams s') = entry_flag (activeStreams s) id (other_kind k) /\
    (forall id', id <> id' ->
       JsMap.get id' (activeStreams s') = JsMap.get id' (activeStreams s)) /\
    (forall id' k', entry_flag (activeStreams s') id' k' =
       if decide (id' = id /\ k' = k) then false
       else entry_flag (activeStreams s) id' k').
Proof.
  destruct (unregisterStream_returns id k s) as (active & Hun & Hget & Hother).
  eexists. split; [exact Hun|]. simpl. split; [|split].
  - unfold JsMap.has, entry_flag. rewrite Hget.
    destruct (JsMap.get id (activeStreams s)) as [streams|]; [|reflexivity].
    destruct (flag streams (other_kind k)); reflexivity.
  - exact Hother.
  - intros id' k'. unfold entry_flag.
    destruct (decide (id' = id)) as [->|Hid].
    + rewrite Hget.
      destruct (JsMap.get id (activeStreams s)) as [streams|].
      * destruct (flag streams (other_kind k)) eqn:Hflag.
        -- rewrite flag_set_flag.
           destruct (decide (k' = k)) as [->|Hk].
           ++ destruct (decide (id = id /\ k = k)) as [_|[]]; auto.
           ++ destruct (decide (id = id /\ k' = k)) as [[_ ?]|_];
                [contradiction|reflexivity].
        -- destruct (decide (id = id /\ k' = k)) as [_|Hn]; [reflexivity|].
           destruct k, k'; simpl in *; try congruence;
             exfalso; apply Hn; split; reflexivity.
      * destruct (decide (id = id /\ k' = k)); reflexivity.
    + rewrite Hother by congruence.
      destruct (decide (id' = id /\ k' = k)) as [[? _]|_]; [contradiction|reflexivity].
Qed.

Lemma has_other_id (active active' : list (string * Presence)) id' :
  JsMap.get id' active' = JsMap.get id' active ->
  JsMap.has id' active' = JsMap.has id' active.
Proof. unfold JsMap.has. intros ->. reflexivity. Qed.

Lemma registerStream_no_idle_entry id k s s' :
  no_idle_entry (activeStreams s) ->
  registerStream id k s = Ret s' ->
  no_idle_entry (activeStreams s').
Proof.
  intros Hinv Hreg.
  destruct (registerStream_flags id k s) as (s1 & Hreg1 & Hhas & Hother & Hflags).
  rewrite Hreg1 in Hreg. injection Hreg as <-.
  intros id'. destruct (decide (id' = id)) as [->|Hid].
  - rewrite Hhas. rewrite !Hflags.
    destruct k; simpl.
    + destruct (decide (id = id /\ screen = screen)) as [_|[]]; auto.
    + destruct (decide (id = id /\ webcam = webcam)) as [_|[]]; auto.
      apply eq_sym, orb_true_r.
  - rewrite (has_other_id (activeStreams s)) by (apply Hother; congruence).
    rewrite !Hflags.
    destruct (decide (id' = id /\ screen = k)) as [[? _]|_]; [contradiction|].
    destruct (decide (id' = id /\ webcam = k)) as [[? _]|_]; [contradiction|].
    apply Hinv.
Qed.

Lemma unregisterStream_no_idle_entry id k s s' :
  no_idle_entry (activeStreams s) ->
  unregisterStream id k s = Ret s' ->
  no_idle_entry (activeStreams s').
Proof.
  intros Hinv Hun.
  destruct (unregisterStream_flags id k s) as (s1 & Hun1 & Hhas & Hother & Hflags).
  rewrite Hun1 in Hun. injection Hun as <-.
  intros id'. destruct (decide (id' = id)) as [->|Hid].
  - rewrite Hhas. rewrite !Hflags.
    destruct k; simpl.
    + destruct (decide (id = id /\ screen = screen)) as [_|[]]; auto.
      destruct (decide (id = id /\ webcam = screen)) as [[_ ?]|_]; [discriminate|].
      reflexivity.
    + destruct (decide (id = id /\ webcam = webcam)) as [_|[]]; auto.
      destruct (decide (id = id /\ screen = webcam)) as [[_ ?]|_]; [discriminate|].
      apply eq_sym, orb_false_r.
  - rewrite (has_other_id (activeStreams s)) by (apply Hother; congruence).
    rewrite !Hflags.
    destruct (decide (id' = id /\ screen = k)) as [[? _]|_]; [contradiction|].
    destruct (decide (id' = id /\ webcam = k)) as [[? _]|_]; [contradiction|].
    apply Hinv.
Qed.

Lemma run_ops_tracks ops s :
  no_idle_entry (activeStreams s) ->
  exists s', run_ops ops s = Ret s' /\
    no_idle_entry (activeStreams s') /\
    forall id k, entry_flag (activeStreams s') id k =
                 last_set ops id k (entry_flag (activeStreams s) id k).
Proof.
  revert s. induction ops as [|op ops IH]; intros s Hinv.
  - exists s. repeat split; auto.
  - destruct op as [id0 k0|id0 k0]; simpl.
    + destruct (registerStream_flags id0 k0 s) as (s1 & Hreg & _ & _ & Hflags).
      rewrite Hreg. simpl.
      destruct (IH s1 (registerStream_no_idle_entry _ _ _ _ Hinv Hreg))
        as (s' & Hrun & Hinv' & Htrack).
      exists s'. split; [exact Hrun|]. split; [exact Hinv'|].
      intros id k. rewrite Htrack, Hflags. reflexivity.
    + destruct (unregisterStream_flags id0 k0 s) as (s1 & Hun & _ & _ & Hflags).
      rewrite Hun. simpl.
      destruct (IH s1 (unregisterStream_no_idle_entry _ _ _ _ Hinv Hun))
        as (s' & Hrun & Hinv' & Htrack).
      exists s'. split; [exact Hrun|]. split; [exact Hinv'|].
      intros id k. rewrite Htrack, Hflags. reflexivity.
Qed.

(** C4: starting from the empty registry, after any sequence of
    [registerStream] and [unregisterStream] calls the registry holds an
    entry for a client id exactly when one of its two kinds is active (the
    last call on that kind was a registration), and the flags of the entry
    are those activity bits.  When the other kind of [id] is inactive,
    [registerStream id kind] followed at once by [unregisterStream id kind]
    removes the entry, and the snapshot no longer lists [id]. *)
Theorem registry_entry_iff_active ops viewers id kind :
  exists s,
    run_ops ops (idle_server viewers) = Ret s /\
    (forall id', JsMap.has id' (activeStreams s) = true <->
                 currently_active ops id' screen = true \/
                 currently_active ops id' webcam = true) /\
    (forall id' k, entry_flag (activeStreams s) id' k = currently_active ops id' k) /\
    (currently_active ops id (other_kind kind) = false ->
     exists s1 s2,
       registerStream id kind s = Ret s1 /\
       unregisterStream id kind s1 = Ret s2 /\
       JsMap.has id (activeStreams s2) = false /\
       id ∉ map clientId (streamList (activeStreams s2))).
Proof.
  destruct (run_ops_tracks ops (idle_server viewers)) as (s & Hrun & Hinv & Htrack).
  { intros id'. reflexivity. }
  assert (Hflags : forall id' k,
             entry_flag (activeStreams s) id' k = currently_active ops id' k).
  { intros id' k. rewrite Htrack. reflexivity. }
  exists s. split; [exact Hrun|]. split; [|split; [exact Hflags|]].
  - intros id'. rewrite Hinv, !Hflags. apply orb_true_iff.
  - intros Hother.
    destruct (registerStream_flags id kind s) as (s1 & Hreg & _ & _ & Hf1).
    destruct (unregisterStream_flags id kind s1) as (s2 & Hun & Hhas & _ & _).
    exists s1, s2. split; [exact Hreg|]. split; [exact Hun|].
    assert (Hgone : JsMap.has id (activeStreams s2) = false).
    { rewrite Hhas, Hf1.
      destruct (decide (id = id /\ other_kind kind = kind)) as [[_ Hk]|_].
      - destruct kind; discriminate.
      - rewrite Hflags. exact Hother. }
    split; [exact Hgone|].
    rewrite streamList_clientIds, get_keys, Hgone. discriminate.
Qed.

Lemma registry_entry_iff_active_witness :
  currently_active [OpRegister "b" screen] "a" (other_kind screen) = false /\
  exists s,
    run_ops [OpRegister "b" screen] (idle_server []) = Ret s /\
    exists s1 s2,
      registerStream "a" screen s = Ret s1 /\
      unregisterStream "a" screen s1 = Ret s2 /\
      JsMap.has "a" (activeStreams s2) = false /\
      "a" ∉ map clientId (streamList (activeStreams s2)).
Proof.
  split; [reflexivity|].
  destruct (registry_entry_iff_active [OpRegister "b" screen] [] "a" screen)
    as (s & Hrun & _ & _ & Hpair).
  exists s. split; [exact Hrun|]. apply Hpair. reflexivity.
Defined.

(** ** The decoder: oversized and zero length prefixes *)

Lemma one_stream_one_viewer_reached :
  registerStream "a" screen
    (fst (onViewerConnection
            {| ws := 1; readyState := OPEN; broken := false; received := [] |}
            initial_server))
  = Ret one_stream_one_viewer.
Proof. reflexivity. Qed.

Lemma feedChunk_break id k s state chunk state' :
  streamBuffers s !! bufferKey id k = Some state ->
  iteration {| buf := buf state ++ chunk; need := need state;
               payloadLen := payloadLen state |} = Break state' ->
  feedChunk id k chunk s = Ret (with_state (bufferKey id k) state' s).
Proof.
  intros Hlook Hit. unfold feedChunk, feed. rewrite Hlook.
  rewrite loop_unfold_iteration, Hit. reflexivity.
Qed.

Lemma blen_four_more (b0 b1 b2 b3 : byte) rest :
  (4 <=? blen (b0 :: b1 :: b2 :: b3 :: rest)) = true.
Proof. apply Z.leb_le. unfold blen. simpl length. lia. Qed.

(** C2: in a state awaiting a length prefix, once the four bytes at the
    head of the buffered input declare a length above [10 * 1024 * 1024],
    [feedChunk] returns without error and publishes nothing; it has
    consumed exactly those four bytes and left the state awaiting a length
    prefix with the following bytes buffered, so the next call reads them
    as a fresh stream would: as the start of a length prefix. *)
Theorem oversized_prefix_dropped id k s state chunk b0 b1 b2 b3 rest :
  streamBuffers s !! bufferKey id k = Some state ->
  need state = 4 ->
  buf state ++ chunk = b0 :: b1 :: b2 :: b3 :: rest ->
  MAX_FRAME < readUInt32BE [b0; b1; b2; b3] ->
  let s' := with_state (bufferKey id k)
              {| buf := rest; need := 4; payloadLen := 0 |} s in
  feedChunk id k chunk s = Ret s' /\
  forall next,
    feedChunk id k next s' =
    feedChunk id k (rest ++ next) (with_state (bufferKey id k) fresh_state s).
Proof.
  intros Hlook Hneed Hbuf Hbig s'. split.
  - apply feedChunk_break with (state := state); [exact Hlook|].
    unfold iteration. cbn [buf need payloadLen].
    rewrite Hneed, Hbuf, blen_four_more, Z.eqb_refl. cbn [andb].
    change (readUInt32BE (b0 :: b1 :: b2 :: b3 :: rest))
      with (readUInt32BE [b0; b1; b2; b3]).
    apply Z.ltb_lt in Hbig. rewrite Hbig. reflexivity.
  - intros next. unfold feedChunk, s', with_state, feed. simpl.
    rewrite !lookup_insert_eq. simpl.
    destruct (loop _ _ _) as [[st clients]|error]; simpl; [|reflexivity].
    rewrite !insert_insert_eq. reflexivity.
Qed.

Lemma oversized_prefix_dropped_witness :
  let big := [xff; xff; xff; xff; x00; x00]%byte in
  streamBuffers one_stream_one_viewer !! bufferKey "a" screen = Some fresh_state /\
  feedChunk "a" screen big one_stream_one_viewer
  = Ret (with_state (bufferKey "a" screen)
           {| buf := [x00; x00]%byte; need := 4; payloadLen := 0 |}
           one_stream_one_viewer).
Proof.
  intros big. split; [reflexivity|].
  apply (oversized_prefix_dropped "a" screen one_stream_one_viewer fresh_state big
           xff xff xff xff [x00; x00]%byte);
    [reflexivity | reflexivity | reflexivity | vm_compute; reflexivity].
Defined.

(** C3, as stated, fails: a zero length prefix publishes nothing. *)
Lemma zero_length_frame_emitted_counterexample :
  ~ zero_length_frame_emitted "a" screen one_stream_one_viewer.
Proof.
  intros Hclaim.
  destruct (Hclaim fresh_state eq_refl eq_refl eq_refl)
    as (s' & state' & Hfeed & Hviewers & _).
  vm_compute in Hfeed. injection Hfeed as <-.
  vm_compute in Hviewers. discriminate.
Qed.

(** C3, amended: in a state awaiting a length prefix, once the four bytes
    at the head of the buffered input are a length prefix for [L = 0],
    [feedChunk] returns without error, consumes those four bytes and
    publishes no payload: the payload test of the loop asks for a positive
    length. *)
Theorem zero_length_prefix_emits_nothing id k s state chunk rest :
  streamBuffers s !! bufferKey id k = Some state ->
  need state = 4 ->
  buf state ++ chunk = x00 :: x00 :: x00 :: x00 :: rest ->
  exists s' state',
    feedChunk id k chunk s = Ret s' /\
    viewingClients s' = viewingClients s /\
    activeStreams s' = activeStreams s /\
    streamBuffers s' !! bufferKey id k = Some state' /\
    buf state' = rest.
Proof.
  intros Hlook Hneed Hbuf.
  exists (with_state (bufferKey id k) {| buf := rest; need := 0; payloadLen := 0 |} s).
  eexists. split; [|split; [reflexivity|split; [reflexivity|split]]].
  - apply feedChunk_break with (state := state); [exact Hlook|].
    unfold iteration. simpl. rewrite Hneed, Hbuf, blen_four_more. reflexivity.
  - simpl. apply lookup_insert_eq.
  - reflexivity.
Qed.

Lemma zero_length_prefix_emits_nothing_witness :
  streamBuffers one_stream_one_viewer !! bufferKey "a" screen = Some fresh_state /\
  exists s' state',
    feedChunk "a" screen [x00; x00; x00; x00]%byte one_stream_one_viewer = Ret s' /\
    viewingClients s' = viewingClients one_stream_one_viewer /\
    activeStreams s' = activeStreams one_stream_one_viewer /\
    streamBuffers s' !! bufferKey "a" screen = Some state' /\
    buf state' = [].
Proof.
  split; [reflexivity|].
  apply (zero_length_prefix_emits_nothing "a" screen one_stream_one_viewer
           fresh_state [x00; x00; x00; x00]%byte []);
    reflexivity.
Defined.

(** After a zero length prefix the state has [need = 0]; from there no
    test of the loop holds any more, whatever arrives: nothing is
    published and [need] stays [0] until the stream is registered again. *)
Lemma need_zero_is_stuck id k s state chunk :
  streamBuffers s !! bufferKey id k = Some state ->
  need state = 0 ->
  feedChunk id k chunk s =
  Ret (with_state (bufferKey id k)
         {| buf := buf state ++ chunk; need := 0; payloadLen := payloadLen state |} s).
Proof.
  intros Hlook Hneed.
  apply feedChunk_break with (state := state); [exact Hlook|].
  unfold iteration, payload_step. simpl. rewrite Hneed. reflexivity.
Qed.

(** ** The decoder inside [feedChunk] *)

(** X7: what [feedChunk] publishes is what the recording consumer records: the
    viewers receive one frame message per recorded frame, in order, and
    the entry of the stream holds the state the decoder was left in. *)
Lemma feedChunk_decode id k chunk s state :
  streamBuffers s !! bufferKey id k = Some state ->
  exists state' frames,
    decode state chunk = Ret (state', frames) /\
    feedChunk id k chunk s =
    Ret {| activeStreams := activeStreams s;
           streamBuffers := <[bufferKey id k := state']> (streamBuffers s);
           viewingClients :=
             foldl (fun w frame => map (deliver (FrameMsg id k frame)) w)
               (viewingClients s) frames |}.
Proof.
  intros Hlook. unfold feedChunk, decode, feed. rewrite Hlook.
  destruct (loop_pure_consumer (broadcastFrame id k)
              (fun frame => map (deliver (FrameMsg id k frame)))
              (broadcastFrame_deliver id k)
              {| buf := buf state ++ chunk; need := need state;
                 payloadLen := payloadLen state |} [] (viewingClients s))
    as (state' & frames & Hrec & Hrun).
  exists state', frames. split; [exact Hrec|]. rewrite Hrun. reflexivity.
Qed.

(** ** The decoder: chunk invariance *)

(** C1 fails on the code: a frame with a four byte payload, cut between
    its length prefix and its payload.  In one chunk the payload is
    emitted; fed in two chunks, the second call finds [need = 4] again and
    reads the payload as a length prefix, and no frame is emitted. *)
Theorem chunk_invariance_fails_on_four_byte_frame :
  let frame := [x00; x00; x00; x01]%byte in
  let chunks := [[x00; x00; x00; x04]; frame]%byte in
  concat chunks = encode_frames [frame] /\
  emitted (decode_chunks fresh_state [encode_frames [frame]] []) = Some [frame] /\
  emitted (decode_chunks fresh_state chunks []) = Some [] /\
  ~ chunk_invariant [frame] chunks.
Proof.
  intros frame chunks.
  assert (Henc : concat chunks = encode_frames [frame]) by reflexivity.
  assert (Hone : emitted (decode_chunks fresh_state [encode_frames [frame]] [])
                 = Some [frame]) by (vm_compute; reflexivity).
  assert (Htwo : emitted (decode_chunks fresh_state chunks []) = Some [])
    by (vm_compute; reflexivity).
  repeat split; try assumption.
  intros Hclaim. specialize (Hclaim Henc).
  rewrite Hone, Htwo in Hclaim. discriminate.
Qed.

(** ** The decoder on frames it can carry

    Apart from four byte payloads the decoder is chunk invariant: whatever
    the chunking, it emits the frames that precede the first empty
    payload. *)

Lemma byteZ_byte_of_Z z : byteZ (byte_of_Z z) = z mod 256.
Proof.
  unfold byteZ, byte_of_Z.
  assert (Hr : 0 <= z mod 256 < 256) by (apply Z.mod_pos_bound; lia).
  destruct (Byte.of_N (Z.to_N (z mod 256))) as [b|] eqn:Hb.
  - apply Byte.to_of_N in Hb. rewrite Hb. lia.
  - apply Byte.of_N_None_iff in Hb. lia.
Qed.

Lemma readUInt32BE_putInt n rest :
  0 <= n < 2 ^ 32 -> readUInt32BE (putInt n ++ rest) = n.
Proof.
  intros Hn. unfold putInt. simpl app. unfold readUInt32BE.
  rewrite !byteZ_byte_of_Z.
  rewrite !Z.shiftl_mul_pow2, !Z.shiftr_div_pow2 by lia.
  change (2 ^ 24) with 16777216. change (2 ^ 16) with 65536.
  change (2 ^ 8) with 256. change (2 ^ 32) with 4294967296 in Hn.
  Z.div_mod_to_equations. lia.
Qed.

Lemma app_split_long (p q b future : list byte) :
  (length p <= length b)%nat ->
  b ++ future = p ++ q ->
  exists rest, b = p ++ rest /\ rest ++ future = q.
Proof.
  revert b. induction p as [|x p IH]; intros b Hlen Heq.
  - exists b. split; [reflexivity|exact Heq].
  - destruct b as [|y b]; simpl in Hlen; [lia|].
    injection Heq as -> Heq.
    destruct (IH b ltac:(lia) Heq) as (rest & -> & Hrest).
    exists rest. split; [reflexivity|exact Hrest].
Qed.

Lemma payload_step_complete state frame tail :
  need state = blen frame -> frame <> [] ->
  buf state = frame ++ tail ->
  payload_step state = Continue frame {| buf := tail; need := 4; payloadLen := 0 |}.
Proof.
  intros Hneed Hne Hbuf. unfold payload_step, subarray_to, subarray_from.
  rewrite Hneed, Hbuf. unfold blen. rewrite Nat2Z.id.
  replace (0 <? Z.of_nat (length frame)) with true
    by (symmetry; apply Z.ltb_lt; destruct frame; [congruence|simpl; lia]).
  replace (Z.of_nat (length frame) <=? Z.of_nat (length (frame ++ tail))) with true
    by (symmetry; apply Z.leb_le; rewrite length_app; lia).
  simpl. rewrite take_app_length, drop_app_length. reflexivity.
Qed.

Lemma payload_step_short state :
  need state <= 0 \/ blen (buf state) < need state ->
  payload_step state = Break state.
Proof.
  intros Hshort. unfold payload_step.
  destruct (0 <? need state) eqn:Hpos; [|reflexivity].
  destruct (need state <=? blen (buf state)) eqn:Hle; [|reflexivity].
  apply Z.ltb_lt in Hpos. apply Z.leb_le in Hle. lia.
Qed.

Lemma iteration_prefix state n rest :
  need state = 4 -> buf state = putInt n ++ rest -> 0 <= n <= MAX_FRAME ->
  iteration state = payload_step {| buf := rest; need := n; payloadLen := n |}.
Proof.
  intros Hneed Hbuf Hn. unfold iteration.
  rewrite Hneed, Hbuf, Z.eqb_refl.
  change (putInt n ++ rest) with
    (byte_of_Z (Z.shiftr n 24) :: byte_of_Z (Z.shiftr n 16)
       :: byte_of_Z (Z.shiftr n 8) :: byte_of_Z n :: rest) at 1.
  rewrite blen_four_more. cbn [andb].
  rewrite readUInt32BE_putInt by (unfold MAX_FRAME in Hn; lia).
  replace (MAX_FRAME <? n) with false by (symmetry; apply Z.ltb_ge; lia).
  reflexivity.
Qed.

Lemma iteration_no_prefix state :
  need state <> 4 \/ blen (buf state) < 4 ->
  iteration state = payload_step state.
Proof.
  intros Hno. unfold iteration.
  destruct (need state =? 4) eqn:Hneed; [|reflexivity].
  destruct (4 <=? blen (buf state)) eqn:Hlen; [|reflexivity].
  apply Z.eqb_eq in Hneed. apply Z.leb_le in Hlen. lia.
Qed.

Lemma encode_frames_cons frame frames :
  encode_frames (frame :: frames) = putInt (blen frame) ++ frame ++ encode_frames frames.
Proof. reflexivity. Qed.

Lemma expected_cons frame frames :
  frame <> [] -> expected (frame :: frames) = frame :: expected frames.
Proof. destruct frame; [congruence|reflexivity]. Qed.

Lemma blen_nonneg (b : list byte) : 0 <= blen b.
Proof. unfold blen. lia. Qed.

(** The payload phase of one pass, for a state awaiting the payload
    [frame]: with the payload complete the pass emits it and continues
    awaiting a prefix, otherwise it breaks and leaves the state as it is. *)
Lemma payload_phase state future frame frames :
  need state = blen frame -> frame <> [] ->
  buf state ++ future = frame ++ encode_frames frames ->
  (blen (buf state) < blen frame /\ payload_step state = Break state) \/
  (exists tail,
     buf state = frame ++ tail /\ tail ++ future = encode_frames frames /\
     payload_step state = Continue frame {| buf := tail; need := 4; payloadLen := 0 |}).
Proof.
  intros Hneed Hne Hbuf.
  destruct (Z.lt_ge_cases (blen (buf state)) (blen frame)) as [Hshort|Hlong].
  - left. split; [exact Hshort|]. apply payload_step_short. right. lia.
  - right. apply app_split_long in Hbuf; [|unfold blen in Hlong; lia].
    destruct Hbuf as (tail & Hb & Htail). exists tail.
    split; [exact Hb|]. split; [exact Htail|].
    apply payload_step_complete; assumption.
Qed.

Lemma loop_pending state :
  forall future frames acc,
    pending state future frames ->
    exists state' out later,
      loop record state acc = Ret (state', acc ++ out) /\
      frames = out ++ later /\
      pending state' future later /\
      settled state'.
Proof.
  induction state as [state IH]
    using (induction_ltof1 _ (fun st => length (buf st))).
  unfold ltof in IH.
  intros future frames0 acc Hp. rewrite loop_unfold_iteration.
  destruct Hp as [state future frames Hneed Hall Hbuf
                 |state future frame frames Hneed Hne Hc Hall Hbuf
                 |state future Hneed].
  - destruct (Z.lt_ge_cases (blen (buf state)) 4) as [Hshort|Hlong].
    + rewrite iteration_no_prefix by (right; exact Hshort).
      rewrite payload_step_short by (right; lia).
      exists state, [], (expected frames). rewrite app_nil_r.
      split; [reflexivity|]. split; [reflexivity|].
      split; [by apply AwaitPrefix|]. left. split; assumption.
    + destruct frames as [|frame frames].
      { exfalso. destruct (buf state); [unfold blen in Hlong; simpl in Hlong; lia|].
        discriminate Hbuf. }
      rewrite encode_frames_cons in Hbuf.
      apply app_split_long in Hbuf; [|unfold blen in Hlong; simpl; lia].
      destruct Hbuf as (rest & Hb & Hrest).
      apply Forall_cons in Hall. destruct Hall as [Hc Hall].
      rewrite (iteration_prefix state (blen frame) rest Hneed Hb)
        by (split; [apply blen_nonneg|apply Hc]).
      destruct (decide (frame = [])) as [->|Hne].
      * rewrite payload_step_short by (left; simpl; reflexivity).
        eexists. exists [], []. rewrite app_nil_r.
        split; [reflexivity|]. split; [reflexivity|].
        split; [by apply Stuck|]. right. simpl. split; [discriminate|left; reflexivity].
      * rewrite (expected_cons frame frames Hne).
        destruct (payload_phase {| buf := rest; need := blen frame;
                                   payloadLen := blen frame |} future frame frames
                    eq_refl Hne Hrest) as [[Hshort ->]|(tail & Htail & Hfut & ->)].
        -- eexists. exists [], (frame :: expected frames). rewrite app_nil_r.
           split; [reflexivity|]. split; [reflexivity|].
           split; [by apply AwaitPayload|].
           right. simpl. split; [apply Hc|right; exact Hshort].
        -- simpl in Htail. unfold record at 1. simpl.
           destruct (IH {| buf := tail; need := 4; payloadLen := 0 |}) with
             (future := future) (frames := expected frames) (acc := acc ++ [frame])
             as (state' & out & later & Hrun & Hout & Hpend & Hset).
           { simpl. rewrite Hb, Htail, !length_app. simpl. lia. }
           { by apply AwaitPrefix. }
           exists state', (frame :: out), later.
           split; [rewrite Hrun, <- app_assoc; reflexivity|].
           split; [rewrite Hout; reflexivity|]. split; assumption.
  - rewrite iteration_no_prefix by (left; rewrite Hneed; apply Hc).
    destruct (payload_phase state future frame frames Hneed Hne Hbuf)
      as [[Hshort ->]|(tail & Htail & Hfut & ->)].
    + exists state, [], (frame :: expected frames). rewrite app_nil_r.
      split; [reflexivity|]. split; [reflexivity|].
      split; [by apply AwaitPayload|].
      right. split; [rewrite Hneed; apply Hc|right; rewrite Hneed; exact Hshort].
    + unfold record at 1. simpl.
      destruct (IH {| buf := tail; need := 4; payloadLen := 0 |}) with
        (future := future) (frames := expected frames) (acc := acc ++ [frame])
        as (state' & out & later & Hrun & Hout & Hpend & Hset).
      { simpl. rewrite Htail, length_app.
        destruct frame; [congruence|simpl; lia]. }
      { by apply AwaitPrefix. }
      exists state', (frame :: out), later.
      split; [rewrite Hrun, <- app_assoc; reflexivity|].
      split; [rewrite Hout; reflexivity|]. split; assumption.
  - rewrite iteration_no_prefix by (left; lia).
    rewrite payload_step_short by (left; lia).
    exists state, [], []. rewrite app_nil_r.
    split; [reflexivity|]. split; [reflexivity|].
    split; [by apply Stuck|]. right. split; lia.
Qed.

Lemma pending_feed state chunk future frames :
  pending state (chunk ++ future) frames ->
  pending {| buf := buf state ++ chunk; need := need state;
             payloadLen := payloadLen state |} future frames.
Proof.
  intros Hp. inversion Hp; subst.
  - apply AwaitPrefix; simpl; [assumption|assumption|].
    rewrite <- app_assoc. assumption.
  - apply AwaitPayload; simpl; try assumption.
    rewrite <- app_assoc. assumption.
  - apply Stuck. assumption.
Qed.

Lemma pending_end state frames :
  pending state [] frames -> settled state -> frames = [].
Proof.
  intros Hp Hset. inversion Hp as [st fu fs Hneed Hall Hbuf
                                  |st fu f fs Hneed Hne Hc Hall Hbuf
                                  |st fu Hneed]; subst.
  - destruct fs as [|f fs]; [reflexivity|exfalso].
    rewrite app_nil_r, encode_frames_cons in Hbuf.
    destruct Hset as [[_ Hshort]|[Hn _]]; [|contradiction].
    rewrite Hbuf in Hshort. unfold blen in Hshort.
    rewrite length_app in Hshort. simpl in Hshort. lia.
  - exfalso. rewrite app_nil_r in Hbuf.
    destruct Hset as [[H4 _]|[_ [Hle|Hshort]]].
    + apply Hc. rewrite <- Hneed. exact H4.
    + rewrite Hneed in Hle. destruct f; [congruence|].
      unfold blen in Hle. simpl in Hle. lia.
    + rewrite Hneed, Hbuf in Hshort. unfold blen in Hshort.
      rewrite length_app in Hshort. lia.
  - reflexivity.
Qed.

Lemma decode_chunks_pending chunks :
  forall state frames acc,
    pending state (concat chunks) frames -> settled state ->
    exists state', decode_chunks state chunks acc = Ret (state', acc ++ frames).
Proof.
  induction chunks as [|chunk chunks IH]; intros state frames acc Hp Hset.
  - rewrite (pending_end state frames Hp Hset), app_nil_r. simpl. eauto.
  - simpl in Hp. apply pending_feed in Hp.
    destruct (loop_pending _ _ _ acc Hp) as (st1 & out & later & Hrun & -> & Hp1 & Hset1).
    simpl. unfold feed. rewrite Hrun. simpl.
    destruct (IH st1 later (acc ++ out) Hp1 Hset1) as (state' & Hrest).
    exists state'. rewrite Hrest, app_assoc. reflexivity.
Qed.

(** X1: chunk invariance where the decoder has it: for a sequence of frames
    none of which is four bytes long or above the limit, every chunking of
    the encoding makes the decoder emit the same frames, those before the
    first empty payload. *)
Lemma carried_frames_chunk_invariant frames chunks :
  Forall carried frames ->
  concat chunks = encode_frames frames ->
  emitted (decode_chunks fresh_state chunks []) = Some (expected frames) /\
  chunk_invariant frames chunks.
Proof.
  intros Hall Hcat.
  assert (Hany : forall chunks',
             concat chunks' = encode_frames frames ->
             emitted (decode_chunks fresh_state chunks' []) = Some (expected frames)).
  { intros chunks' Hcat'.
    destruct (decode_chunks_pending chunks' fresh_state (expected frames) [])
      as (state' & Hrun).
    - apply AwaitPrefix; [reflexivity|exact Hall|]. simpl. exact Hcat'.
    - left. split; [reflexivity|]. unfold blen. simpl. lia.
    - rewrite Hrun. reflexivity. }
  split; [apply Hany; exact Hcat|].
  intros _. rewrite (Hany chunks Hcat).
  rewrite (Hany [encode_frames frames]); [reflexivity|].
  simpl. apply app_nil_r.
Qed.

Lemma carried_frames_chunk_invariant_hello :
  let frames := [["h"; "e"; "l"; "l"; "o"]; ["!"]]%byte in
  let chunks := [[x00; x00]; [x00; x05; "h"; "e"]; ["l"; "l"; "o"; x00; x00; x00];
                 [x01; "!"]]%byte in
  emitted (decode_chunks fresh_state chunks []) = Some frames.
Proof.
  intros frames chunks.
  destruct (carried_frames_chunk_invariant frames chunks) as [Hemit _].
  - repeat (apply Forall_cons; split;
              [unfold carried, blen, MAX_FRAME; simpl; lia|]).
    apply Forall_nil. exact I.
  - reflexivity.
  - exact Hemit.
Defined.

(** The same input on the relay: the viewer of [one_stream_one_viewer]
    receives the frame when the eight bytes arrive in one chunk, and no
    frame when they arrive in two. *)
Lemma four_byte_frame_lost_on_relay :
  let frame := [x00; x00; x00; x01]%byte in
  let received_after calls :=
    match run_calls calls one_stream_one_viewer with
    | Ret s => Some (map (fun v => drop 2 (received v)) (viewingClients s))
    | Throw _ => None
    end in
  received_after [CallFeedChunk "a" screen ([x00; x00; x00; x04]%byte ++ frame)]
    = Some [[FrameMsg "a" screen frame]] /\
  received_after [CallFeedChunk "a" screen [x00; x00; x00; x04]%byte;
                  CallFeedChunk "a" screen frame]
    = Some [[]].
Proof. split; vm_compute; reflexivity. Qed.

(** * Further properties of the relay *)

(** ** Length prefixes and buffer keys *)

(** X2: the producer's [putInt(frame.length)] followed by the payload is read
    back by [readUInt32BE(0)] and [subarray(4)]: the declared length is the
    payload length and the rest of the buffer starts with the payload. *)
Theorem length_prefix_round_trip frame rest :
  blen frame < 2 ^ 32 ->
  readUInt32BE (encode_frame frame ++ rest) = blen frame /\
  subarray_from 4 (encode_frame frame ++ rest) = frame ++ rest.
Proof.
  intros Hlen. unfold encode_frame. rewrite <- app_assoc. split.
  - apply readUInt32BE_putInt. split; [apply blen_nonneg|exact Hlen].
  - reflexivity.
Qed.

Lemma length_prefix_round_trip_witness :
  blen ["h"; "i"]%byte < 2 ^ 32 /\
  readUInt32BE (encode_frame ["h"; "i"]%byte ++ [x07]%byte) = 2 /\
  subarray_from 4 (encode_frame ["h"; "i"]%byte ++ [x07]%byte) = ["h"; "i"; x07]%byte.
Proof.
  split; [reflexivity|].
  apply (length_prefix_round_trip ["h"; "i"]%byte [x07]%byte). reflexivity.
Defined.

(** X3: two streams have the same buffer key exactly when they have the same
    client id and the same kind, whatever characters the client id holds
    (a colon included). *)
Theorem bufferKey_same_stream id1 k1 id2 k2 :
  bufferKey id1 k1 = bufferKey id2 k2 <-> id1 = id2 /\ k1 = k2.
Proof.
  split.
  - apply bufferKey_inj.
  - intros [-> ->]. reflexivity.
Qed.

(** ** What the decoder never emits *)

Lemma byteZ_nonneg b : 0 <= byteZ b.
Proof. unfold byteZ. lia. Qed.

Lemma readUInt32BE_nonneg b : 0 <= readUInt32BE b.
Proof.
  unfold readUInt32BE.
  destruct b as [|b0 [|b1 [|b2 [|b3 rest]]]]; try lia.
  pose proof (byteZ_nonneg b0). pose proof (byteZ_nonneg b1).
  pose proof (byteZ_nonneg b2). pose proof (byteZ_nonneg b3).
  assert (0 <= Z.shiftl (byteZ b0) 24) by (apply Z.shiftl_nonneg; assumption).
  assert (0 <= Z.shiftl (byteZ b1) 16) by (apply Z.shiftl_nonneg; assumption).
  assert (0 <= Z.shiftl (byteZ b2) 8) by (apply Z.shiftl_nonneg; assumption).
  lia.
Qed.

Lemma payload_step_bounded state :
  bounded_need state ->
  match payload_step state with
  | Break state' => bounded_need state'
  | Continue frame state' => publishable frame /\ bounded_need state'
  end.
Proof.
  intros Hb. unfold payload_step.
  destruct (0 <? need state) eqn:Hpos; simpl; [|exact Hb].
  destruct (need state <=? blen (buf state)) eqn:Hle; [|exact Hb].
  apply Z.ltb_lt in Hpos. apply Z.leb_le in Hle. split.
  - unfold publishable, subarray_to, blen in *. rewrite length_take.
    unfold bounded_need in Hb. lia.
  - unfold bounded_need, MAX_FRAME. simpl. lia.
Qed.

Lemma iteration_bounded state :
  bounded_need state ->
  match iteration state with
  | Break state' => bounded_need state'
  | Continue frame state' => publishable frame /\ bounded_need state'
  end.
Proof.
  intros Hb. unfold iteration.
  destruct ((need state =? 4) && (4 <=? blen (buf state))).
  - destruct (MAX_FRAME <? readUInt32BE (buf state)) eqn:Hbig.
    + unfold bounded_need, MAX_FRAME. simpl. lia.
    + apply payload_step_bounded. unfold bounded_need. simpl.
      apply Z.ltb_ge in Hbig. split; [apply readUInt32BE_nonneg|exact Hbig].
  - apply payload_step_bounded. exact Hb.
Qed.

Lemma loop_publishable state :
  forall acc, bounded_need state ->
  exists state' out,
    loop record state acc = Ret (state', acc ++ out) /\
    bounded_need state' /\ Forall publishable out.
Proof.
  induction state as [state IH]
    using (induction_ltof1 _ (fun st => length (buf st))).
  intros acc Hb. rewrite loop_unfold_iteration.
  pose proof (iteration_bounded state Hb) as Hit.
  destruct (iteration state) as [state'|frame state'] eqn:Heq.
  - exists state', []. rewrite app_nil_r.
    split; [reflexivity|]. split; [exact Hit|constructor].
  - destruct Hit as [Hframe Hb']. unfold record at 1. simpl.
    destruct (IH state' (iteration_shrinks _ _ _ Heq) (acc ++ [frame]) Hb')
      as (st & out & Hrun & Hbst & Hout).
    exists st, (frame :: out). split; [rewrite Hrun, <- app_assoc; reflexivity|].
    split; [exact Hbst|]. constructor; assumption.
Qed.

Lemma decode_chunks_publishable chunks :
  forall state acc, bounded_need state ->
  exists state' out,
    decode_chunks state chunks acc = Ret (state', acc ++ out) /\
    Forall publishable out.
Proof.
  induction chunks as [|chunk chunks IH]; intros state acc Hb; simpl.
  - exists state, []. rewrite app_nil_r. split; [reflexivity|constructor].
  - unfold feed.
    destruct (loop_publishable
                {| buf := buf state ++ chunk; need := need state;
                   payloadLen := payloadLen state |} acc Hb)
      as (st1 & out1 & Hrun & Hb1 & Hout1).
    rewrite Hrun. simpl.
    destruct (IH st1 (acc ++ out1) Hb1) as (st2 & out2 & Hrest & Hout2).
    exists st2, (out1 ++ out2). split; [rewrite Hrest, app_assoc; reflexivity|].
    apply Forall_app. split; assumption.
Qed.

(** X4: whatever bytes arrive on a freshly registered stream, in whatever
    chunks, every payload the decoder emits is non-empty and at most
    10 MiB long. *)
Theorem emitted_frames_publishable chunks :
  exists state frames,
    decode_chunks fresh_state chunks [] = Ret (state, frames) /\
    Forall publishable frames.
Proof.
  destruct (decode_chunks_publishable chunks fresh_state [])
    as (state & frames & Hrun & Hall).
  - unfold bounded_need, MAX_FRAME. simpl. lia.
  - exists state, frames. split; [exact Hrun|exact Hall].
Qed.

(** ** A zero length prefix silences the stream *)

Lemma decode_chunks_need_zero chunks :
  forall state acc, need state = 0 ->
  exists state', decode_chunks state chunks acc = Ret (state', acc) /\ need state' = 0.
Proof.
  induction chunks as [|chunk chunks IH]; intros state acc Hneed; simpl.
  - exists state. split; [reflexivity|exact Hneed].
  - unfold feed. rewrite loop_unfold_iteration.
    rewrite iteration_no_prefix by (left; simpl; lia).
    rewrite payload_step_short by (left; simpl; lia).
    simpl. apply IH. simpl. exact Hneed.
Qed.

(** X5: once a chunk brings a zero length prefix to a stream awaiting a
    prefix, the stream emits nothing any more: neither the bytes that
    follow in that chunk nor any later chunk produce a frame, however many
    well-formed frames they hold. *)
Theorem zero_prefix_silences_stream rest chunks :
  emitted (decode_chunks fresh_state ((x00 :: x00 :: x00 :: x00 :: rest) :: chunks) [])
  = Some [].
Proof.
  simpl decode_chunks. unfold feed. rewrite loop_unfold_iteration.
  rewrite (iteration_prefix _ 0 rest) by (unfold MAX_FRAME; simpl; first [reflexivity|lia]).
  rewrite payload_step_short by (left; simpl; lia).
  simpl.
  destruct (decode_chunks_need_zero chunks
              {| buf := rest; need := 0; payloadLen := 0 |} [] eq_refl)
    as (state' & Hrun & _).
  rewrite Hrun. reflexivity.
Qed.

(** ** The registry as a list of entries *)

Section JsMapOrder.
Context {V : Type}.
Implicit Types (m : list (string * V)) (k : string) (v : V).

Lemma set_same k v m : JsMap.get k m = Some v -> JsMap.set k v m = m.
Proof.
  induction m as [|[k' v'] m IH]; simpl; [discriminate|].
  destruct (decide (k = k')) as [->|Hne].
  - intros [= ->]. reflexivity.
  - intros Hget. rewrite (IH Hget). reflexivity.
Qed.

Lemma keys_set k v m :
  JsMap.keys (JsMap.set k v m) =
  if JsMap.has k m then JsMap.keys m else JsMap.keys m ++ [k].
Proof.
  unfold JsMap.has, JsMap.keys.
  induction m as [|[k' v'] m IH]; simpl; [reflexivity|].
  destruct (decide (k = k')) as [->|Hne]; simpl; [reflexivity|].
  rewrite IH. destruct (JsMap.get k m); reflexivity.
Qed.

Lemma keys_remove k m :
  JsMap.keys (JsMap.remove k m) = filter (fun k' => k' <> k) (JsMap.keys m).
Proof.
  unfold JsMap.keys.
  induction m as [|[k' v'] m IH]; simpl; [reflexivity|].
  destruct (decide (k = k')) as [->|Hne].
  - rewrite filter_cons_False by (intros Hn; apply Hn; reflexivity). exact IH.
  - rewrite filter_cons_True by (simpl; congruence). simpl. rewrite IH. reflexivity.
Qed.

Lemma keys_set_NoDup k v m :
  NoDup (JsMap.keys m) -> NoDup (JsMap.keys (JsMap.set k v m)).
Proof.
  intros Hnd. rewrite keys_set. destruct (JsMap.has k m) eqn:Hhas; [exact Hnd|].
  apply NoDup_app. split; [exact Hnd|]. split; [|apply NoDup_singleton].
  intros x Hx Hin. apply list_elem_of_singleton in Hin. subst x.
  apply get_keys in Hx. congruence.
Qed.

Lemma keys_remove_NoDup k m :
  NoDup (JsMap.keys m) -> NoDup (JsMap.keys (JsMap.remove k m)).
Proof. intros Hnd. rewrite keys_remove. apply NoDup_filter. exact Hnd. Qed.

Lemma get_of_entry k v m :
  NoDup (JsMap.keys m) -> (k, v) ∈ m -> JsMap.get k m = Some v.
Proof.
  unfold JsMap.keys.
  induction m as [|[k' v'] m IH]; simpl; intros Hnd Hin.
  - inversion Hin.
  - apply NoDup_cons in Hnd. destruct Hnd as [Hnotin Hnd].
    apply elem_of_cons in Hin. destruct Hin as [[= -> ->]|Hin].
    + destruct (decide (k' = k')); congruence.
    + destruct (decide (k = k')) as [->|Hne]; [|apply IH; assumption].
      exfalso. apply Hnotin. apply list_elem_of_fmap. exists (k', v).
      split; [reflexivity|exact Hin].
Qed.
End JsMapOrder.

Lemma registerStream_keys_NoDup id k s s' :
  NoDup (JsMap.keys (activeStreams s)) ->
  registerStream id k s = Ret s' ->
  NoDup (JsMap.keys (activeStreams s')).
Proof.
  intros Hnd. unfold registerStream.
  destruct (JsMap.has id (activeStreams s)).
  - destruct (JsMap.get id (activeStreams s)); [|discriminate].
    rewrite broadcastStreamUpdate_deliver. intros [= <-]. simpl.
    apply keys_set_NoDup. exact Hnd.
  - rewrite get_set_eq, broadcastStreamUpdate_deliver. intros [= <-]. simpl.
    apply keys_set_NoDup, keys_set_NoDup. exact Hnd.
Qed.

Lemma unregisterStream_keys_NoDup id k s s' :
  NoDup (JsMap.keys (activeStreams s)) ->
  unregisterStream id k s = Ret s' ->
  NoDup (JsMap.keys (activeStreams s')).
Proof.
  intros Hnd. unfold unregisterStream.
  rewrite broadcastStreamUpdate_deliver. intros [= <-]. simpl.
  destruct (JsMap.get id (activeStreams s)) as [streams|]; [|exact Hnd].
  destruct (negb _ && negb _).
  - apply keys_remove_NoDup. exact Hnd.
  - apply keys_set_NoDup. exact Hnd.
Qed.

Lemma run_ops_keys_NoDup ops :
  forall s s', NoDup (JsMap.keys (activeStreams s)) ->
               run_ops ops s = Ret s' ->
               NoDup (JsMap.keys (activeStreams s')).
Proof.
  induction ops as [|op ops IH]; intros s s' Hnd; simpl.
  - intros [= <-]. exact Hnd.
  - destruct (run_op op s) as [s1|error] eqn:Hop; simpl; [|discriminate].
    apply IH. destruct op as [id k|id k]; simpl in Hop.
    + eapply registerStream_keys_NoDup; eassumption.
    + eapply unregisterStream_keys_NoDup; eassumption.
Qed.

(** ** The presence snapshot *)

(** X10: starting with nothing registered, after any sequence of
    registrations and deregistrations the presence snapshot lists no
    client id twice and lists no client without a stream. *)
Theorem snapshot_well_formed ops viewers :
  exists s,
    run_ops ops (idle_server viewers) = Ret s /\
    well_formed_snapshot (streamList (activeStreams s)).
Proof.
  destruct (run_ops_tracks ops (idle_server viewers)) as (s & Hrun & Hinv & _).
  { intros id. reflexivity. }
  exists s. split; [exact Hrun|].
  assert (Hnd : NoDup (JsMap.keys (activeStreams s))).
  { apply (run_ops_keys_NoDup ops (idle_server viewers)); [constructor|exact Hrun]. }
  split.
  - rewrite streamList_clientIds. exact Hnd.
  - unfold streamList. apply Forall_forall. intros info Hin.
    apply list_elem_of_fmap in Hin. destruct Hin as ([id streams] & -> & Hentry).
    simpl. pose proof (get_of_entry id streams _ Hnd Hentry) as Hget.
    specialize (Hinv id). unfold JsMap.has, entry_flag in Hinv.
    rewrite Hget in Hinv. simpl in Hinv. symmetry. exact Hinv.
Qed.

(** ** Repeated deregistration and registration *)

Lemma set_flag_same streams k b : flag streams k = b -> set_flag streams k b = streams.
Proof. destruct streams, k; simpl; intros ->; reflexivity. Qed.

(** X11: a second [unregisterStream] for the same stream (['error'] followed by
    ['end'] on one request) finds nothing to change: the registry and the
    buffers stay as the first call left them.  It does publish the presence
    snapshot once more. *)
Theorem unregisterStream_twice id k s :
  exists s1 s2,
    unregisterStream id k s = Ret s1 /\
    unregisterStream id k s1 = Ret s2 /\
    activeStreams s2 = activeStreams s1 /\
    streamBuffers s2 = streamBuffers s1 /\
    viewingClients s2 =
      map (deliver (StreamsMsg (streamList (activeStreams s1)))) (viewingClients s1).
Proof.
  destruct (unregisterStream_returns id k s) as (active & Hun & Hget & _).
  eexists. eexists. split; [exact Hun|].
  unfold unregisterStream at 1. rewrite broadcastStreamUpdate_deliver.
  cbn [activeStreams streamBuffers viewingClients].
  rewrite delete_delete_eq.
  assert (Hsame :
    match
      match JsMap.get id (activeStreams s) with
      | Some streams =>
          if flag streams (other_kind k) then Some (set_flag streams k false) else None
      | None => None
      end
    with
    | Some clientStreams =>
        if negb (p_screen (set_flag clientStreams k false))
           && negb (p_webcam (set_flag clientStreams k false))
        then JsMap.remove id active
        else JsMap.set id (set_flag clientStreams k false) active
    | None => active
    end = active).
  { destruct (JsMap.get id (activeStreams s)) as [streams|]; [|reflexivity].
    destruct (flag streams (other_kind k)) eqn:Hother; [|reflexivity].
    rewrite (set_flag_same (set_flag streams k false) k false)
      by (destruct streams, k; reflexivity).
    replace (negb (p_screen (set_flag streams k false))
             && negb (p_webcam (set_flag streams k false))) with false
      by (destruct streams, k; simpl in *; subst; simpl;
          rewrite ?andb_false_r; reflexivity).
    apply set_same. exact Hget. }
  rewrite <- Hget in Hsame. rewrite Hsame. split; [reflexivity|]. repeat split.
Qed.

(** X12: registering a stream that is already active leaves the registry as it
    is and replaces the stream's decode state by a fresh one: whatever the
    earlier connection had buffered of an unfinished frame is gone. *)
Theorem registerStream_again id k s :
  entry_flag (activeStreams s) id k = true ->
  exists s',
    registerStream id k s = Ret s' /\
    activeStreams s' = activeStreams s /\
    streamBuffers s' !! bufferKey id k = Some fresh_state.
Proof.
  unfold entry_flag. intros Hflag.
  destruct (JsMap.get id (activeStreams s)) as [streams|] eqn:Hget; [|discriminate].
  eexists. split.
  - unfold registerStream, JsMap.has. rewrite Hget. rewrite Hget.
    apply broadcastStreamUpdate_deliver.
  - simpl. split; [|apply lookup_insert_eq].
    rewrite (set_flag_same streams k true Hflag). apply set_same. exact Hget.
Qed.

Lemma registerStream_again_witness :
  let s := with_state (bufferKey "a" screen)
             {| buf := [x00; x00]%byte; need := 4; payloadLen := 0 |}
             one_stream_one_viewer in
  entry_flag (activeStreams s) "a" screen = true /\
  exists s',
    registerStream "a" screen s = Ret s' /\
    activeStreams s' = activeStreams s /\
    streamBuffers s' !! bufferKey "a" screen = Some fresh_state.
Proof.
  intros s. split; [reflexivity|].
  apply (registerStream_again "a" screen s). reflexivity.
Defined.

(** ** Viewers follow the registry *)

Lemma up_to_date_deliver active clients :
  Forall (up_to_date active)
    (map (deliver (StreamsMsg (streamList active))) clients).
Proof.
  apply Forall_forall. intros v Hin.
  apply list_elem_of_fmap in Hin. destruct Hin as (c & -> & _).
  unfold up_to_date. rewrite deliver_healthy, deliver_received.
  intros ->. apply last_snoc.
Qed.

Lemma run_op_up_to_date op s :
  exists s', run_op op s = Ret s' /\
             Forall (up_to_date (activeStreams s')) (viewingClients s').
Proof.
  destruct op as [id k|id k]; simpl.
  - destruct (registerStream_returns id k s) as (active & Hreg & _).
    eexists. split; [exact Hreg|]. simpl. apply up_to_date_deliver.
  - destruct (unregisterStream_returns id k s) as (active & Hun & _).
    eexists. split; [exact Hun|]. simpl. apply up_to_date_deliver.
Qed.

(** X13: after any non-empty sequence of registrations and deregistrations,
    from any relay state, every viewer whose channel takes messages is up
    to date: the last message it received is the presence snapshot of the
    registry as it now stands. *)
Theorem viewers_up_to_date ops s :
  ops <> [] ->
  exists s',
    run_ops ops s = Ret s' /\
    Forall (up_to_date (activeStreams s')) (viewingClients s').
Proof.
  revert s. induction ops as [|op ops IH]; intros s Hne; [congruence|].
  destruct (run_op_up_to_date op s) as (s1 & Hop & Hup).
  simpl. rewrite Hop. simpl.
  destruct ops as [|op' ops'].
  - exists s1. split; [reflexivity|exact Hup].
  - apply IH. discriminate.
Qed.

Lemma viewers_up_to_date_witness :
  [OpRegister "b" webcam; OpUnregister "a" screen] <> [] /\
  exists s',
    run_ops [OpRegister "b" webcam; OpUnregister "a" screen] one_stream_one_viewer
    = Ret s' /\
    Forall (up_to_date (activeStreams s')) (viewingClients s').
Proof.
  split; [discriminate|].
  apply (viewers_up_to_date [OpRegister "b" webcam; OpUnregister "a" screen]
           one_stream_one_viewer).
  discriminate.
Defined.

(** ** Viewers connecting and closing *)

Lemma viewers_update_new client client' clients :
  ws client' = ws client ->
  ws client ∉ map ws clients ->
  viewers_update client' (viewers_add client clients) = clients ++ [client'].
Proof.
  intros Hws Hnew. unfold viewers_add, viewers_update.
  destruct (decide (ws client ∈ map ws clients)); [contradiction|].
  rewrite map_app. simpl.
  destruct (decide (ws client = ws client')); [|congruence].
  f_equal. rewrite <- (map_id clients) at 2. apply map_ext_in.
  intros c Hc. destruct (decide (ws c = ws client')) as [Heq|]; [|reflexivity].
  exfalso. apply Hnew. apply list_elem_of_fmap. exists c.
  split; [congruence|]. apply list_elem_of_In. exact Hc.
Qed.

Lemma viewers_delete_new client' client clients :
  ws client' = ws client ->
  ws client ∉ map ws clients ->
  viewers_delete client (clients ++ [client']) = clients.
Proof.
  intros Hws Hnew. unfold viewers_delete. rewrite filter_app.
  rewrite (filter_cons_False _ client' []) by (intros Hn; apply Hn; exact Hws).
  rewrite filter_nil, app_nil_r.
  induction clients as [|c clients IH]; [reflexivity|].
  simpl in Hnew. apply not_elem_of_cons in Hnew. destruct Hnew as [Hc Hnew].
  rewrite filter_cons_True by (simpl; congruence).
  rewrite (IH Hnew). reflexivity.
Qed.

Lemma onViewerConnection_new client s :
  ws client ∉ map ws (viewingClients s) ->
  onViewerConnection client s =
  ({| activeStreams := activeStreams s;
      streamBuffers := streamBuffers s;
      viewingClients :=
        viewingClients s ++ [deliver (StreamsMsg (streamList (activeStreams s))) client] |},
   if is_open client && broken client then Some "send failed"%string else None).
Proof.
  intros Hnew. unfold onViewerConnection, sendStreamList, send, deliver.
  destruct (is_open client) eqn:Hopen; simpl.
  - destruct (broken client) eqn:Hbroken; simpl.
    + unfold viewers_add.
      destruct (decide (ws client ∈ map ws (viewingClients s))); [contradiction|].
      reflexivity.
    + rewrite viewers_update_new by (simpl; auto). reflexivity.
  - rewrite viewers_update_new by auto. reflexivity.
Qed.

(** X14: a socket that connects and is not yet in the viewer set is appended to
    it; the registry and the buffers are not touched.  If its channel takes
    messages it has received the current presence snapshot, otherwise
    nothing.  The listener fails exactly when the socket is open and its
    channel is broken: the unguarded [send] of [sendStreamList] throws, and
    the socket is in the set all the same. *)
Theorem viewer_connection client s :
  ws client ∉ map ws (viewingClients s) ->
  let s' := fst (onViewerConnection client s) in
  activeStreams s' = activeStreams s /\
  streamBuffers s' = streamBuffers s /\
  (exists client',
     viewingClients s' = viewingClients s ++ [client'] /\
     ws client' = ws client /\
     received client' =
       if healthy client
       then received client ++ [StreamsMsg (streamList (activeStreams s))]
       else received client) /\
  (snd (onViewerConnection client s) = None <->
   ~ (is_open client = true /\ broken client = true)).
Proof.
  intros Hnew s'. subst s'. rewrite (onViewerConnection_new client s Hnew).
  cbn [fst snd activeStreams streamBuffers viewingClients].
  split; [reflexivity|]. split; [reflexivity|]. split.
  - eexists. split; [reflexivity|]. split; [apply deliver_ws|apply deliver_received].
  - destruct (is_open client), (broken client); simpl; split; intros H;
      first [ discriminate H
            | reflexivity
            | exfalso; apply H; split; reflexivity
            | intros [Ho Hb]; discriminate ].
Qed.

Lemma viewer_connection_witness :
  let client := {| ws := 2; readyState := OPEN; broken := false; received := [] |} in
  (ws client ∉ map ws (viewingClients one_stream_one_viewer)) /\
  snd (onViewerConnection client one_stream_one_viewer) = None.
Proof.
  intros client.
  assert (Hnew : ws client ∉ map ws (viewingClients one_stream_one_viewer)).
  { simpl. intros Hin. apply list_elem_of_singleton in Hin. discriminate. }
  split; [exact Hnew|].
  destruct (viewer_connection client one_stream_one_viewer Hnew)
    as (_ & _ & _ & Herr).
  apply Herr. intros [_ Hbroken]. discriminate.
Defined.

(** X15: a socket that was not in the viewer set connects and later emits
    ['close'].  The ['close'] listener exists exactly when the connection
    listener did not fail.  If it exists, the close gives back the relay
    state as it was before the connection: the other viewers keep their
    place and what they received, the registry and the buffers are
    untouched.  If it does not exist (the snapshot [send] threw before the
    listener was installed), the close changes nothing and the socket
    stays in the viewer set. *)
Theorem viewer_connect_then_close client s :
  ws client ∉ map ws (viewingClients s) ->
  let s' := fst (onViewerConnection client s) in
  (close_listener_installed client s = true <->
   snd (onViewerConnection client s) = None) /\
  (close_listener_installed client s = true ->
   viewer_close_event client s s' = s) /\
  (close_listener_installed client s = false ->
   viewer_close_event client s s' = s' /\
   ws client ∈ map ws (viewingClients s')).
Proof.
  intros Hnew s'. subst s'. rewrite (onViewerConnection_new client s Hnew).
  cbn [fst snd]. unfold viewer_close_event, close_listener_installed.
  unfold sendStreamList, send.
  destruct (is_open client) eqn:Hopen; [destruct (broken client) eqn:Hbroken|];
    cbn [andb]; (split; [split; intros H; first [reflexivity|discriminate H]|]);
    (split; [intros H|intros H]); try discriminate H.
  - split; [reflexivity|]. cbn [viewingClients]. rewrite map_app.
    apply elem_of_app. right. simpl. rewrite deliver_ws. left.
  - unfold onViewerClose. cbn [activeStreams streamBuffers viewingClients].
    rewrite viewers_delete_new by (auto using deliver_ws).
    destruct s. reflexivity.
  - unfold onViewerClose. cbn [activeStreams streamBuffers viewingClients].
    rewrite viewers_delete_new by (auto using deliver_ws).
    destruct s. reflexivity.
Qed.

Lemma viewer_connect_then_close_witness :
  let client := {| ws := 2; readyState := OPEN; broken := false; received := [] |} in
  (ws client ∉ map ws (viewingClients one_stream_one_viewer)) /\
  close_listener_installed client one_stream_one_viewer = true /\
  viewer_close_event client one_stream_one_viewer
    (fst (onViewerConnection client one_stream_one_viewer))
  = one_stream_one_viewer.
Proof.
  intros client.
  assert (Hnew : ws client ∉ map ws (viewingClients one_stream_one_viewer)).
  { simpl. intros Hin. apply list_elem_of_singleton in Hin. discriminate. }
  split; [exact Hnew|]. split; [reflexivity|].
  destruct (viewer_connect_then_close client one_stream_one_viewer Hnew)
    as (_ & Hclose & _).
  apply Hclose. reflexivity.
Defined.

(** X16: a viewer that connects is told what the others were told last: when
    every viewer is up to date with the registry, so is every viewer after
    a new socket has connected, the new one included. *)
Theorem viewer_connection_up_to_date client s :
  ws client ∉ map ws (viewingClients s) ->
  Forall (up_to_date (activeStreams s)) (viewingClients s) ->
  Forall (up_to_date (activeStreams (fst (onViewerConnection client s))))
    (viewingClients (fst (onViewerConnection client s))).
Proof.
  intros Hnew Hall. rewrite (onViewerConnection_new client s Hnew).
  cbn [fst activeStreams viewingClients].
  apply Forall_app. split; [exact Hall|].
  apply Forall_cons. split; [|apply Forall_nil; exact I].
  unfold up_to_date. rewrite deliver_healthy, deliver_received.
  intros ->. apply last_snoc.
Qed.

Lemma viewer_connection_up_to_date_witness :
  let client := {| ws := 2; readyState := OPEN; broken := false; received := [] |} in
  (ws client ∉ map ws (viewingClients one_stream_one_viewer)) /\
  Forall (up_to_date (activeStreams one_stream_one_viewer))
    (viewingClients one_stream_one_viewer) /\
  Forall (up_to_date (activeStreams (fst (onViewerConnection client one_stream_one_viewer))))
    (viewingClients (fst (onViewerConnection client one_stream_one_viewer))).
Proof.
  intros client.
  assert (Hnew : ws client ∉ map ws (viewingClients one_stream_one_viewer)).
  { simpl. intros Hin. apply list_elem_of_singleton in Hin. discriminate. }
  assert (Hall : Forall (up_to_date (activeStreams one_stream_one_viewer))
                   (viewingClients one_stream_one_viewer)).
  { apply Forall_cons. split; [|apply Forall_nil; exact I]. intros _. reflexivity. }
  split; [exact Hnew|]. split; [exact Hall|].
  apply (viewer_connection_up_to_date client one_stream_one_viewer Hnew Hall).
Defined.

(** ** A whole producer request *)

Lemma loop_uniform state :
  exists state' frames,
    (forall acc, loop record state acc = Ret (state', acc ++ frames)) /\
    (forall (W : Type) (emit : list byte -> W -> Exc W) (g : list byte -> W -> W),
       (forall frame w, emit frame w = Ret (g frame w)) ->
       forall w, loop emit state w =
                 Ret (state', foldl (fun w frame => g frame w) w frames)).
Proof.
  induction state as [state IH]
    using (induction_ltof1 _ (fun st => length (buf st))).
  destruct (iteration state) as [state'|frame state'] eqn:Hit.
  - exists state', []. split.
    + intros acc. rewrite loop_unfold_iteration, Hit, app_nil_r. reflexivity.
    + intros W emit g Hemit w. rewrite loop_unfold_iteration, Hit. reflexivity.
  - destruct (IH state' (iteration_shrinks _ _ _ Hit)) as (st & frames & Hrec & Hrun).
    exists st, (frame :: frames). split.
    + intros acc. rewrite loop_unfold_iteration, Hit. unfold record at 1. simpl.
      rewrite Hrec, <- app_assoc. reflexivity.
    + intros W emit g Hemit w. rewrite loop_unfold_iteration, Hit, Hemit. simpl.
      apply Hrun. exact Hemit.
Qed.

Lemma deliver_all_snoc messages message client :
  deliver_all (messages ++ [message]) client =
  deliver message (deliver_all messages client).
Proof. unfold deliver_all. rewrite foldl_app. reflexivity. Qed.

Lemma deliver_all_app ms1 ms2 client :
  deliver_all (ms1 ++ ms2) client = deliver_all ms2 (deliver_all ms1 client).
Proof. unfold deliver_all. apply foldl_app. Qed.

Lemma map_deliver_all_nil clients : map (deliver_all []) clients = clients.
Proof. induction clients as [|c clients IH]; simpl; [|rewrite IH]; reflexivity. Qed.

Lemma publish_frames id k frames clients :
  foldl (fun w frame => map (deliver (FrameMsg id k frame)) w) clients frames =
  map (deliver_all (map (FrameMsg id k) frames)) clients.
Proof.
  revert clients. induction frames as [|frame frames IH]; intros clients; simpl.
  - symmetry. apply map_deliver_all_nil.
  - rewrite IH, map_map. reflexivity.
Qed.

Lemma run_calls_app calls1 calls2 s :
  run_calls (calls1 ++ calls2) s = (s1 <- run_calls calls1 s ;; run_calls calls2 s1).
Proof.
  revert s. induction calls1 as [|c calls1 IH]; intros s; simpl; [reflexivity|].
  destruct (run_call c s) as [s1|error]; simpl; [apply IH|reflexivity].
Qed.

Lemma emit_events_calls id k trace x :
  listening x = Some (id, k) ->
  emit_events trace x =
  (s' <- run_calls (concat (map (listeners id k) trace)) (server x) ;;
   Ret {| server := s'; responses := responses x; listening := listening x |}).
Proof.
  revert x. induction trace as [|ev trace IH]; intros x Hl; simpl.
  - destruct x. reflexivity.
  - unfold emit_event. rewrite Hl, run_calls_app.
    destruct (run_calls (listeners id k ev) (server x)) as [s1|error]; simpl;
      [|reflexivity].
    rewrite IH by reflexivity. reflexivity.
Qed.

(** Feeding a stream chunk after chunk: the viewers receive the frames the
    decoder emits over the chunks, in order, and the stream's entry ends in
    the decoder's last state. *)
Lemma feed_chunks_on_relay id k chunks :
  forall s state,
    streamBuffers s !! bufferKey id k = Some state ->
    exists state' frames,
      (forall acc, decode_chunks state chunks acc = Ret (state', acc ++ frames)) /\
      run_calls (map (CallFeedChunk id k) chunks) s =
      Ret {| activeStreams := activeStreams s;
             streamBuffers := <[bufferKey id k := state']> (streamBuffers s);
             viewingClients :=
               map (deliver_all (map (FrameMsg id k) frames)) (viewingClients s) |}.
Proof.
  induction chunks as [|chunk chunks IH]; intros s state Hlook.
  - exists state, []. split.
    + intros acc. simpl. rewrite app_nil_r. reflexivity.
    + simpl. rewrite insert_id by exact Hlook.
      rewrite map_deliver_all_nil. destruct s. reflexivity.
  - destruct (loop_uniform {| buf := buf state ++ chunk; need := need state;
                              payloadLen := payloadLen state |})
      as (st1 & frames1 & Hrec & Hrun).
    specialize (Hrun _ (broadcastFrame id k)
                  (fun frame => map (deliver (FrameMsg id k frame)))
                  (broadcastFrame_deliver id k) (viewingClients s)).
    destruct (IH {| activeStreams := activeStreams s;
                    streamBuffers := <[bufferKey id k := st1]> (streamBuffers s);
                    viewingClients :=
                      foldl (fun w frame => map (deliver (FrameMsg id k frame)) w)
                        (viewingClients s) frames1 |} st1)
      as (st2 & frames2 & Hrec2 & Hrun2).
    { simpl. apply lookup_insert_eq. }
    exists st2, (frames1 ++ frames2). split.
    + intros acc. simpl. unfold feed. rewrite Hrec. simpl.
      rewrite Hrec2, app_assoc. reflexivity.
    + simpl. unfold feedChunk, feed. rewrite Hlook, Hrun. simpl.
      rewrite Hrun2. simpl. rewrite insert_insert_eq.
      rewrite publish_frames, map_map, map_app.
      f_equal. f_equal. apply map_ext. intros v. symmetry. apply deliver_all_app.
Qed.

(** X8: one producer request from its POST to its ['end']: for a non-empty
    client id and a body that encodes frames the decoder can carry, cut
    into any chunks, every viewer is offered, in this order, the presence
    snapshot taken at registration, one frame message per frame (up to the
    first empty payload), and the presence snapshot taken at
    deregistration.  Afterwards the stream has no decode state left and
    its flag in the registry is off. *)
Theorem producer_request_delivery id k s frames chunks :
  id <> "" ->
  Forall carried frames ->
  concat chunks = encode_frames frames ->
  exists x0 x,
    postStream k (Some id) s = Ret x0 /\
    emit_events (map OnData chunks ++ [OnEnd]) x0 = Ret x /\
    responses x = [ok_response] /\
    viewingClients (server x) =
      map (deliver_all
             (StreamsMsg (streamList (activeStreams (server x0)))
                :: map (FrameMsg id k) (expected frames)
                ++ [StreamsMsg (streamList (activeStreams (server x)))]))
        (viewingClients s) /\
    streamBuffers (server x) = delete (bufferKey id k) (streamBuffers s) /\
    entry_flag (activeStreams (server x)) id k = false.
Proof.
  intros Hid Hall Hcat.
  destruct (postStream_accepts k id s Hid) as (s0 & Hreg & Hpost).
  destruct (registerStream_returns id k s) as (active0 & Hreg0 & _).
  rewrite Hreg0 in Hreg. injection Hreg as <-.
  set (s0 := {| activeStreams := active0;
                streamBuffers := <[bufferKey id k := fresh_state]> (streamBuffers s);
                viewingClients :=
                  map (deliver (StreamsMsg (streamList active0))) (viewingClients s) |})
    in *.
  destruct (feed_chunks_on_relay id k chunks s0 fresh_state)
    as (st' & out & Hdec & Hrun).
  { simpl. apply lookup_insert_eq. }
  destruct (decode_chunks_pending chunks fresh_state (expected frames) [])
    as (st'' & Hexp).
  { apply AwaitPrefix; [reflexivity|exact Hall|exact Hcat]. }
  { left. split; [reflexivity|]. unfold blen. simpl. lia. }
  rewrite (Hdec []) in Hexp. injection Hexp as _ ->.
  set (s1 := {| activeStreams := activeStreams s0;
                streamBuffers := <[bufferKey id k := st']> (streamBuffers s0);
                viewingClients :=
                  map (deliver_all (map (FrameMsg id k) (expected frames)))
                    (viewingClients s0) |}) in *.
  destruct (unregisterStream_returns id k s1) as (active2 & Hun & Hget & _).
  eexists. eexists. split; [exact Hpost|].
  rewrite (emit_events_calls id k) by reflexivity.
  rewrite map_app, concat_app, run_calls_app.
  replace (concat (map (listeners id k) (map OnData chunks)))
    with (map (CallFeedChunk id k) chunks)
    by (clear; induction chunks as [|c cs IH]; simpl; [|rewrite <- IH]; reflexivity).
  cbn [server]. rewrite Hrun. simpl. rewrite Hun. simpl.
  split; [reflexivity|]. split; [reflexivity|]. split; [|split].
  - rewrite !map_map. apply map_ext. intros v.
    exact (eq_sym (deliver_all_snoc (_ :: _) _ v)).
  - rewrite !delete_insert_eq. reflexivity.
  - change (entry_flag active2 id k = false). unfold entry_flag. rewrite Hget.
    destruct (JsMap.get id (activeStreams s1)) as [streams|]; [|reflexivity].
    destruct (flag streams (other_kind k)); [|reflexivity].
    destruct streams, k; reflexivity.
Qed.

Lemma producer_request_delivery_witness :
  let frames := [["h"; "i"]; ["!"]]%byte in
  let chunks := [[x00; x00; x00]; [x02; "h"]; ["i"; x00; x00; x00; x01; "!"]]%byte in
  "a" <> "" /\ Forall carried frames /\ concat chunks = encode_frames frames /\
  exists x0 x,
    postStream screen (Some "a") (idle_server []) = Ret x0 /\
    emit_events (map OnData chunks ++ [OnEnd]) x0 = Ret x /\
    responses x = [ok_response].
Proof.
  intros frames chunks.
  assert (Hid : "a" <> "") by discriminate.
  assert (Hall : Forall carried frames).
  { repeat (apply Forall_cons; split;
              [unfold carried, blen, MAX_FRAME; simpl; lia|]).
    apply Forall_nil. exact I. }
  assert (Hcat : concat chunks = encode_frames frames) by reflexivity.
  split; [exact Hid|]. split; [exact Hall|]. split; [exact Hcat|].
  destruct (producer_request_delivery "a" screen (idle_server []) frames chunks
              Hid Hall Hcat) as (x0 & x & Hpost & Hrun & Hresp & _).
  exists x0, x. split; [exact Hpost|]. split; [exact Hrun|exact Hresp].
Defined.

(** ** The producer client *)

Lemma minimalJpeg_carried : carried minimalJpeg.
Proof. unfold carried, blen, MAX_FRAME. simpl. lia. Qed.

Lemma frame_to_send_nonempty latest : frame_to_send latest <> [].
Proof. destruct latest as [[|b frame]|]; simpl; discriminate. Qed.

(** X9: what the producer client posts is never an empty frame: a missing or
    empty capture is replaced by the built-in minimal JPEG, which the
    decoder can carry.  Whenever the frame sent can be carried (at most
    10 MiB, not four bytes long), the relay's decoder, fed the posted body
    in any chunks, emits exactly that frame. *)
Theorem client_body_decodes latest chunks :
  let frame := frame_to_send latest in
  frame <> [] /\
  (latest = None \/ latest = Some [] -> frame = minimalJpeg /\ carried frame) /\
  (carried frame ->
   concat chunks = sendOne_body frame ->
   emitted (decode_chunks fresh_state chunks []) = Some [frame]).
Proof.
  intros frame. split; [apply frame_to_send_nonempty|]. split.
  - intros [->| ->]; (split; [reflexivity|apply minimalJpeg_carried]).
  - intros Hc Hcat.
    destruct (decode_chunks_pending chunks fresh_state (expected [frame]) [])
      as (state' & Hrun).
    + apply (AwaitPrefix fresh_state (concat chunks) [frame]);
        [reflexivity|apply Forall_cons; split; [exact Hc|apply Forall_nil; exact I]|].
      simpl. rewrite Hcat. unfold sendOne_body, encode_frames, encode_frame.
      simpl. rewrite app_nil_r. reflexivity.
    + left. split; [reflexivity|]. unfold blen. simpl. lia.
    + rewrite (expected_cons frame [] (frame_to_send_nonempty latest)) in Hrun.
      rewrite Hrun. reflexivity.
Qed.

Lemma client_body_decodes_witness :
  let empty : option (list byte) := Some [] in
  let body := sendOne_body (frame_to_send empty) in
  (empty = None \/ empty = Some []) /\
  carried (frame_to_send empty) /\
  concat [take 70 body; drop 70 body] = body /\
  emitted (decode_chunks fresh_state [take 70 body; drop 70 body] [])
  = Some [minimalJpeg].
Proof.
  intros empty body.
  destruct (client_body_decodes empty [take 70 body; drop 70 body])
    as (_ & Hjpeg & Hdecode).
  assert (Hempty : empty = None \/ empty = Some [])
    by (right; reflexivity).
  destruct (Hjpeg Hempty) as [_ Hc].
  assert (Hcat : concat [take 70 body; drop 70 body] = body) by reflexivity.
  split; [exact Hempty|]. split; [exact Hc|]. split; [exact Hcat|].
  apply Hdecode; [exact Hc|exact Hcat].
Defined.

(** ** The viewer page *)













(** ** After an oversized prefix *)

Lemma iteration_oversized state b0 b1 b2 b3 rest :
  need state = 4 ->
  buf state = b0 :: b1 :: b2 :: b3 :: rest ->
  MAX_FRAME < readUInt32BE [b0; b1; b2; b3] ->
  iteration state = Break {| buf := rest; need := 4; payloadLen := 0 |}.
Proof.
  intros Hneed Hbuf Hbig. unfold iteration.
  rewrite Hneed, Hbuf, blen_four_more, Z.eqb_refl. cbn [andb].
  change (readUInt32BE (b0 :: b1 :: b2 :: b3 :: rest))
    with (readUInt32BE [b0; b1; b2; b3]).
  apply Z.ltb_lt in Hbig. rewrite Hbig. reflexivity.
Qed.

(** X6: the [break] taken on an oversized prefix also ends the decoding of the
    chunk: well-formed frames that follow the prefix in the same chunk are
    not emitted by that call.  They are emitted, all of them and in order,
    by the next call, even one that brings an empty chunk. *)
Theorem oversized_prefix_defers_rest b0 b1 b2 b3 frames :
  MAX_FRAME < readUInt32BE [b0; b1; b2; b3] ->
  Forall carried frames ->
  let chunk := b0 :: b1 :: b2 :: b3 :: encode_frames frames in
  emitted (decode_chunks fresh_state [chunk] []) = Some [] /\
  emitted (decode_chunks fresh_state [chunk; []] []) = Some (expected frames).
Proof.
  intros Hbig Hall chunk.
  assert (Hfirst : feed record fresh_state chunk [] =
                   Ret ({| buf := encode_frames frames; need := 4; payloadLen := 0 |}, [])).
  { unfold feed. rewrite loop_unfold_iteration.
    rewrite (iteration_oversized _ b0 b1 b2 b3 (encode_frames frames));
      [reflexivity|reflexivity|reflexivity|exact Hbig]. }
  split.
  - simpl. rewrite Hfirst. reflexivity.
  - cbn [decode_chunks]. rewrite Hfirst. cbn [bind fst snd]. unfold feed.
    cbn [buf need payloadLen].
    destruct (loop_pending
                {| buf := encode_frames frames ++ []; need := 4; payloadLen := 0 |}
                [] (expected frames) [])
      as (state' & out & later & Hrun & Hout & Hpend & Hset).
    { apply AwaitPrefix; [reflexivity|exact Hall|]. simpl. rewrite !app_nil_r.
      reflexivity. }
    rewrite Hrun. cbn [bind fst snd emitted app].
    rewrite (pending_end state' later Hpend Hset), app_nil_r in Hout.
    rewrite Hout. reflexivity.
Qed.

Lemma oversized_prefix_defers_rest_witness :
  let frames := [["o"; "k"]]%byte in
  MAX_FRAME < readUInt32BE [x01; x00; x00; x00]%byte /\
  Forall carried frames /\
  emitted (decode_chunks fresh_state
             [x01 :: x00 :: x00 :: x00 :: encode_frames frames]%byte []) = Some [] /\
  emitted (decode_chunks fresh_state
             [x01 :: x00 :: x00 :: x00 :: encode_frames frames; []]%byte [])
  = Some frames.
Proof.
  intros frames.
  assert (Hbig : MAX_FRAME < readUInt32BE [x01; x00; x00; x00]%byte)
    by (vm_compute; reflexivity).
  assert (Hall : Forall carried frames).
  { apply Forall_cons. split; [unfold carried, blen, MAX_FRAME; simpl; lia|].
    apply Forall_nil. exact I. }
  split; [exact Hbig|]. split; [exact Hall|].
  apply (oversized_prefix_defers_rest x01 x00 x00 x00 frames Hbig Hall).
Defined.

Lemma feedChunk_decode_witness :
  streamBuffers one_stream_one_viewer !! bufferKey "a" screen = Some fresh_state /\
  exists state' frames,
    decode fresh_state [x00; x00; x00; x01; "!"]%byte = Ret (state', frames) /\
    feedChunk "a" screen [x00; x00; x00; x01; "!"]%byte one_stream_one_viewer =
    Ret {| activeStreams := activeStreams one_stream_one_viewer;
           streamBuffers :=
             <[bufferKey "a" screen := state']> (streamBuffers one_stream_one_viewer);
           viewingClients :=
             foldl (fun w frame => map (deliver (FrameMsg "a" screen frame)) w)
               (viewingClients one_stream_one_viewer) frames |}.
Proof.
  split; [reflexivity|].
  apply (feedChunk_decode "a" screen [x00; x00; x00; x01; "!"]%byte
           one_stream_one_viewer fresh_state).
  reflexivity.
Defined.
